(** * configflow: a shallow embedding of [configflow.go] and its properties

    The Go package loads configuration from several sources into one flat
    key/value namespace and binds it onto the fields of a struct through
    reflection.  This file embeds the package function by function and
    proves the properties its specification states about merging,
    flattening, value resolution, coercion, validation and error
    propagation.

    Conventions.
    - A Go [string] is a sequence of bytes: Rocq's [string].
    - A Go [map[string]interface{}] that the code only reads with [range]
      is given as the list of its entries in the order [range] yields
      them; Go leaves that order unspecified, so every statement about
      such a map is proved for all orders.  A map that the code builds
      or indexes is a [gmap string value].
    - A function returning [(T, error)] returns a [Result T]; a function
      returning [error] returns an [option error] ([None] is Go's [nil]).
    - [int] is 64 bits wide (a 64-bit platform).
    - Functions of Go's standard library that are not arithmetic on bytes
      (float parsing and printing, quoting, Unicode case mapping, URL
      parsing, the regular expression engine, the JSON and YAML decoders)
      are the fields of the class [Platform]; every theorem holds for all
      platforms. *)

From Stdlib Require Import ZArith String Ascii List Bool Lia.
From Stdlib Require Import Floats.
From stdpp Require Import base option list gmap strings fin_maps.

Set Warnings "-register-all".

Local Open Scope string_scope.
Local Open Scope Z_scope.

(** ** Bytes and strings: the parts of package [strings] that are used *)

Module strings.

Definition byte (c : ascii) : Z := Z.of_N (N_of_ascii c).

(** [asciiSpace] of package [strings]: tab, LF, VT, FF, CR and space. *)
Definition asciiSpace (c : ascii) : bool :=
  let n := byte c in ((9 <=? n) && (n <=? 13)) || (n =? 32).

(** The UTF-8 encodings of the non-ASCII code points of
    [unicode.IsSpace]: U+0085 and U+00A0 on two bytes; U+1680,
    U+2000..U+200A, U+2028, U+2029, U+202F, U+205F and U+3000 on
    three. *)
Definition space2 (c0 c1 : ascii) : bool :=
  (byte c0 =? 194) && ((byte c1 =? 133) || (byte c1 =? 160)).

Definition space3 (c0 c1 c2 : ascii) : bool :=
  let '(a, b, c) := (byte c0, byte c1, byte c2) in
  ((a =? 225) && (b =? 154) && (c =? 128))
  || ((a =? 226) && (b =? 128)
      && (((128 <=? c) && (c <=? 138)) || (c =? 168) || (c =? 169) || (c =? 175)))
  || ((a =? 226) && (b =? 129) && (c =? 159))
  || ((a =? 227) && (b =? 128) && (c =? 128)).

(** [TrimLeftFunc(s, unicode.IsSpace)]: drop white-space runes from the
    front. *)
Fixpoint trimLeftSpace (s : string) : string :=
  match s with
  | EmptyString => EmptyString
  | String c0 s1 =>
      if asciiSpace c0 then trimLeftSpace s1 else
      match s1 with
      | EmptyString => s
      | String c1 s2 =>
          if space2 c0 c1 then trimLeftSpace s2 else
          match s2 with
          | EmptyString => s
          | String c2 s3 => if space3 c0 c1 c2 then trimLeftSpace s3 else s
          end
      end
  end.

(** The same from the back, on the reversed bytes: the last rune of a
    string is decoded from the nearest byte that starts a rune, which
    for the encodings above is their first byte. *)
Fixpoint trimLeftSpaceRev (s : string) : string :=
  match s with
  | EmptyString => EmptyString
  | String c0 s1 =>
      if asciiSpace c0 then trimLeftSpaceRev s1 else
      match s1 with
      | EmptyString => s
      | String c1 s2 =>
          if space2 c1 c0 then trimLeftSpaceRev s2 else
          match s2 with
          | EmptyString => s
          | String c2 s3 => if space3 c2 c1 c0 then trimLeftSpaceRev s3 else s
          end
      end
  end.

(** [strings.TrimSpace]. *)
Definition TrimSpace (s : string) : string :=
  String.rev (trimLeftSpaceRev (String.rev (trimLeftSpace s))).

(** [strings.Split(s, sep)] for a separator of one byte: the pieces of
    [s] between the occurrences of [sep], one more than there are
    occurrences. *)
Fixpoint Split (s : string) (sep : ascii) : list string :=
  match s with
  | EmptyString => [EmptyString]
  | String c s' =>
      if Ascii.eqb c sep then EmptyString :: Split s' sep
      else match Split s' sep with
           | piece :: pieces => String c piece :: pieces
           | [] => [String c EmptyString]
           end
  end.

(** [strings.Cut(s, sep)]: the text before and after the first [sep]. *)
Fixpoint Cut (s : string) (sep : ascii) : option (string * string) :=
  match s with
  | EmptyString => None
  | String c s' =>
      if Ascii.eqb c sep then Some (EmptyString, s')
      else match Cut s' sep with
           | Some (before, after) => Some (String c before, after)
           | None => None
           end
  end.

(** [strings.SplitN(s, sep, 2)]: at most two pieces, split at the first
    [sep]. *)
Definition SplitN2 (s : string) (sep : ascii) : list string :=
  match Cut s sep with
  | Some (before, after) => [before; after]
  | None => [s]
  end.

(** [strings.LastIndex(s, sep)] for a separator of one byte; -1 when
    [sep] does not occur.  [i] is the index of the first byte of [s]. *)
Fixpoint lastIndexFrom (i : Z) (s : string) (sep : ascii) (found : Z) : Z :=
  match s with
  | EmptyString => found
  | String c s' => lastIndexFrom (i + 1) s' sep (if Ascii.eqb c sep then i else found)
  end.

Definition LastIndex (s : string) (sep : ascii) : Z := lastIndexFrom 0 s sep (-1).

(** The slice expression [s[i:]] for [0 <= i <= len(s)]. *)
Definition sliceFrom (s : string) (i : Z) : string :=
  String.substring (Z.to_nat i) (String.length s - Z.to_nat i) s.

Definition isASCII (s : string) : bool :=
  forallb (fun c => byte c <? 128) (list_ascii_of_string s).

Definition lowerByte (c : ascii) : ascii :=
  let n := byte c in
  if (65 <=? n) && (n <=? 90) then ascii_of_N (Z.to_N (n + 32)) else c.

Fixpoint mapBytes (f : ascii -> ascii) (s : string) : string :=
  match s with
  | EmptyString => EmptyString
  | String c s' => String (f c) (mapBytes f s')
  end.

End strings.

(** ** Values and errors *)

(** What an [interface{}] holds in this package: [nil], the scalars that
    the decoders, [parseValue] and map literals produce, sequences, and
    nested [map[string]interface{}] values (their entries in [range]
    order). *)
Inductive value : Type :=
  | VNil
  | VBool (b : bool)
  | VInt (i : Z)
  | VFloat (f : float)
  | VString (s : string)
  | VSlice (l : list value)
  | VMap (m : list (string * value)).

Abbreviation entries := (list (string * value)).

(** [strconv.ErrSyntax] and [strconv.ErrRange]. *)
Inductive NumErr : Type := ErrSyntax | ErrRange.

(** Go's [error] values: [errors.New] and [fmt.Errorf] without [%w];
    [fmt.Errorf] with [%w] (the formatted message and the wrapped error);
    [strconv.NumError]; the package's [ValidationError]. *)
Inductive error : Type :=
  | errorString (msg : string)
  | wrapError (msg : string) (err : error)
  | NumError (Func Num : string) (Err : NumErr)
  | ValidationError (Field : string) (Value : value) (Rule Message : string).

Inductive Result (A : Type) : Type :=
  | Ok (a : A)
  | Err (e : error).
Arguments Ok {A} a.
Arguments Err {A} e.

(** ** Package [strconv] *)

Module strconv.

Definition syntaxError (fn str : string) : error := NumError fn str ErrSyntax.
Definition rangeError (fn str : string) : error := NumError fn str ErrRange.

(** [strconv.ParseBool]: exactly these twelve spellings. *)
Definition ParseBool (s : string) : Result bool :=
  if bool_decide (s ∈ ["1"; "t"; "T"; "TRUE"; "true"; "True"]) then Ok true
  else if bool_decide (s ∈ ["0"; "f"; "F"; "FALSE"; "false"; "False"]) then Ok false
  else Err (syntaxError "ParseBool" s).

Definition digit (c : ascii) : option Z :=
  let n := strings.byte c in
  if (48 <=? n) && (n <=? 57) then Some (n - 48) else None.

Definition maxUint64 : Z := 2 ^ 64 - 1.

(** The loop of [ParseUint(s, 10, 64)]: a byte that is not a digit is a
    syntax error; [n >= cutoff] (then [n * 10] overflows) and
    [n * 10 + d > maxVal] are range errors. *)
Fixpoint parseUintLoop (s0 s : string) (n : Z) : Result Z :=
  match s with
  | EmptyString => Ok n
  | String c s' =>
      match digit c with
      | None => Err (syntaxError "ParseUint" s0)
      | Some d =>
          if maxUint64 / 10 + 1 <=? n then Err (rangeError "ParseUint" s0)
          else
            let n1 := n * 10 + d in
            if maxUint64 <? n1 then Err (rangeError "ParseUint" s0)
            else parseUintLoop s0 s' n1
      end
  end.

(** [strconv.ParseUint(s, 10, 64)]. *)
Definition ParseUint (s : string) : Result Z :=
  match s with
  | EmptyString => Err (syntaxError "ParseUint" s)
  | _ => parseUintLoop s s 0
  end.

(** [strconv.ParseInt(s, 10, 64)]: an optional sign, then
    [ParseUint]; the result must fit a signed 64-bit integer.  On a
    range error [ParseUint] returns [maxUint64], which is beyond both
    cutoffs, so [ParseInt] reports a range error of its own. *)
Definition ParseInt (s0 : string) : Result Z :=
  match s0 with
  | EmptyString => Err (syntaxError "ParseInt" s0)
  | String c s' =>
      let '(neg, s) :=
        if Ascii.eqb c "+" then (false, s')
        else if Ascii.eqb c "-" then (true, s')
        else (false, s0) in
      match ParseUint s with
      | Err (NumError _ _ ErrRange) => Err (rangeError "ParseInt" s0)
      | Err _ => Err (syntaxError "ParseInt" s0)
      | Ok un =>
          let cutoff := 2 ^ 63 in
          if negb neg && (cutoff <=? un) then Err (rangeError "ParseInt" s0)
          else if neg && (cutoff <? un) then Err (rangeError "ParseInt" s0)
          else Ok (if neg then - un else un)
      end
  end.

(** [strconv.Atoi]: its fast path and [ParseInt(s, 10, 0)] agree on
    the value when [int] has 64 bits; the error names [Atoi]. *)
Definition Atoi (s : string) : Result Z :=
  match ParseInt s with
  | Ok i => Ok i
  | Err (NumError _ num e) => Err (NumError "Atoi" num e)
  | Err e => Err e
  end.

(** Decimal printing, as [%d] and [strconv.Itoa] do it. *)
Definition digitChar (d : Z) : ascii := ascii_of_N (Z.to_N (48 + d)).

Fixpoint utoa (fuel : nat) (n : Z) (acc : string) : string :=
  match fuel with
  | O => acc
  | S fuel' =>
      let acc' := String (digitChar (n mod 10)) acc in
      if n <? 10 then acc' else utoa fuel' (n / 10) acc'
  end.

Definition Itoa (n : Z) : string :=
  if n <? 0 then String "-" (utoa (Z.to_nat (Z.log2 (- n)) + 1) (- n) EmptyString)
  else utoa (Z.to_nat (Z.log2 n) + 1) n EmptyString.

End strconv.

(** ** Package [reflect]: kinds *)

Module reflect.

Inductive Kind : Type :=
  | Invalid | Bool
  | Int | Int8 | Int16 | Int32 | Int64
  | Uint | Uint8 | Uint16 | Uint32 | Uint64 | Uintptr
  | Float32 | Float64 | Complex64 | Complex128
  | Array | Chan | Func | Interface | Map | Pointer | Slice | String
  | Struct | UnsafePointer.

#[global] Instance Kind_eq_dec : EqDecision Kind.
Proof. solve_decision. Defined.

(** The conversion to a signed integer of [bits] bits, as the
    assignments of [Value.SetInt] perform it: two's complement
    wrap-around. *)
Definition wrapInt (bits x : Z) : Z :=
  (x + 2 ^ (bits - 1)) mod 2 ^ bits - 2 ^ (bits - 1).

End reflect.

(** ** The platform *)

Class Platform := {
  (** [strconv.ParseFloat(s, 64)]. *)
  ParseFloat : string -> Result float;
  (** [fmt.Sprintf("%v", f)] for a [float64]. *)
  FormatFloat : float -> string;
  (** The conversion [float32(f)], as [reflect.Value.SetFloat] stores it
      in a [float32] field. *)
  toFloat32 : float -> float;
  (** [strconv.Quote], used by the message of a [NumError]. *)
  Quote : string -> string;
  (** [strings.Map(unicode.ToLower, s)], which [strings.ToLower] falls
      back to for a string that is not ASCII. *)
  unicodeToLower : string -> string;
  (** [url.Parse(s)]: its error. *)
  urlParse : string -> option error;
  (** [MatchString] of the compiled e-mail pattern. *)
  emailMatch : string -> bool;
  (** [json.Unmarshal] and [yaml.Unmarshal] into a
      [map[string]interface{}]. *)
  jsonUnmarshal : string -> Result entries;
  yamlUnmarshal : string -> Result entries
}.

(** The operating system as [Load] sees it: [os.Environ()] and
    [os.ReadFile]. *)
Inductive fileRead : Type :=
  | FileData (data : string)
  | FileNotExist
  | FileError (e : error).

Record OS := { Environ : list string; ReadFile : string -> fileRead }.

(** [strings.ToLower]. *)
Definition ToLower `{Platform} (s : string) : string :=
  if strings.isASCII s then strings.mapBytes strings.lowerByte s
  else unicodeToLower s.

(** [Error()] of an error value. *)
Definition Error `{Platform} (e : error) : string :=
  match e with
  | errorString msg => msg
  | wrapError msg _ => msg
  | NumError fn num e =>
      "strconv." ++ fn ++ ": parsing " ++ Quote num ++ ": "
      ++ match e with
         | ErrSyntax => "invalid syntax"
         | ErrRange => "value out of range"
         end
  | ValidationError field _ _ message =>
      "validation failed for field '" ++ field ++ "': " ++ message
  end.

(** [fmt.Errorf(text + "%w", err)]. *)
Definition Errorf_w `{Platform} (text : string) (err : error) : error :=
  wrapError (text ++ Error err) err.

Fixpoint insertByKey (kv : string * string) (l : list (string * string))
  : list (string * string) :=
  match l with
  | [] => [kv]
  | kv' :: l' =>
      if String.leb kv.1 kv'.1 then kv :: l else kv' :: insertByKey kv l'
  end.

Definition sortByKey (l : list (string * string)) : list (string * string) :=
  foldr insertByKey [] l.

(** [fmt.Sprintf("%v", v)]: scalars in their usual spelling, a sequence
    as [[a b c]], a map as [map[k:v ...]] with its keys sorted. *)
Fixpoint Sprint `{Platform} (v : value) : string :=
  match v with
  | VNil => "<nil>"
  | VBool b => if b then "true" else "false"
  | VInt i => strconv.Itoa i
  | VFloat f => FormatFloat f
  | VString s => s
  | VSlice l => "[" ++ String.concat " " (map Sprint l) ++ "]"
  | VMap m =>
      "map["
      ++ String.concat " "
           (map (fun kv => kv.1 ++ ":" ++ kv.2)
                (sortByKey (map (fun kv => (kv.1, Sprint kv.2)) m)))
      ++ "]"
  end.

(** ** Helper functions of the package *)

(** [mergeMaps(dst, src)]: [for k, v := range src { dst[k] = v }]. *)
Definition mergeMaps (dst src : gmap string value) : gmap string value :=
  map_fold (fun k v (dst : gmap string value) => <[k := v]> dst) dst src.

(** The key of an entry under a prefix:
    [key := k; if prefix != "" { key = prefix + "." + k }]. *)
Definition joinKey (prefix k : string) : string :=
  if decide (prefix = "") then k else prefix ++ "." ++ k.

(** [flattenMap], on the value that holds the map: the recursion of the
    Go function descends into the entries' values, so the structural
    argument is the enclosing value.  The inner loop
    [for nk, nv := range flattenMap(nested, key) { result[nk] = nv }] is
    the loop of [mergeMaps]. *)
Fixpoint flatten (v : value) (prefix : string) {struct v} : gmap string value :=
  match v with
  | VMap m =>
      foldl (fun result '(k, v) =>
               let key := joinKey prefix k in
               match v with
               | VMap _ => mergeMaps result (flatten v key)
               | _ => <[key := v]> result
               end) ∅ m
  | _ => ∅
  end.

(** [flattenMap(m, prefix)]. *)
Definition flattenMap (m : entries) (prefix : string) : gmap string value :=
  flatten (VMap m) prefix.

(** [parseValue]: boolean, then integer, then float, then the string. *)
Definition parseValue `{Platform} (s : string) : value :=
  match strconv.ParseBool s with
  | Ok b => VBool b
  | Err _ =>
      match strconv.ParseInt s with
      | Ok i => VInt i
      | Err _ =>
          match ParseFloat s with
          | Ok f => VFloat f
          | Err _ => VString s
          end
      end
  end.

(** ** Sources *)

(** The interface [Source]: a value with the two methods. *)
Module Source.
Record t := {
  Load : OS -> Result (gmap string value);
  Priority : Z
}.
End Source.
Abbreviation Source := Source.t.

(** [FileSource.Load]. *)
Definition FileSource_Load `{Platform} (Path : string) (os : OS)
  : Result (gmap string value) :=
  match ReadFile os Path with
  | FileNotExist => Ok ∅
  | FileError e => Err e
  | FileData data =>
      let ext := ToLower (strings.sliceFrom Path (strings.LastIndex Path "." + 1)) in
      let decoded :=
        if decide (ext = "json") then Some (jsonUnmarshal data)
        else if decide (ext = "yaml" \/ ext = "yml") then Some (yamlUnmarshal data)
        else None in
      match decoded with
      | None => Err (errorString ("unsupported file format: " ++ ext))
      | Some (Err e) => Err (Errorf_w ("failed to parse " ++ Path ++ ": ") e)
      | Some (Ok parsed) => Ok (flattenMap parsed "")
      end
  end.

Definition FileSource `{Platform} (Path : string) : Source :=
  {| Source.Load := FileSource_Load Path; Source.Priority := 1 |}.

(** [EnvSource.Load]: the loop body for one entry of [os.Environ()]. *)
Definition EnvSource_entry `{Platform} (result : gmap string value) (env : string)
  : gmap string value :=
  match strings.SplitN2 env "=" with
  | [name; val] =>
      let key := ToLower name in
      match parseValue val with
      | VNil => <[key := VString val]> result
      | parsed => <[key := parsed]> result
      end
  | _ => result
  end.

Definition EnvSource_Load `{Platform} (os : OS) : Result (gmap string value) :=
  Ok (foldl EnvSource_entry ∅ (Environ os)).

Definition EnvSource `{Platform} : Source :=
  {| Source.Load := EnvSource_Load; Source.Priority := 2 |}.

(** [MapSource.Load]. *)
Definition MapSource_Load (Data : entries) (os : OS) : Result (gmap string value) :=
  Ok (flattenMap Data "").

Definition MapSource (Data : entries) : Source :=
  {| Source.Load := MapSource_Load Data; Source.Priority := 0 |}.

(** ** The loader and its validators *)

(** [ValidatorFunc]: [nil] is [None]. *)
Abbreviation ValidatorFunc := (value -> string -> option error).

Record Loader := {
  sources : list Source;
  validators : gmap string ValidatorFunc;
  strict : bool
}.

Definition required_validator `{Platform} : ValidatorFunc :=
  fun value param =>
    if match value with VNil => true | _ => false end
       || bool_decide (Sprint value = "")
    then Some (errorString "field is required")
    else None.

Definition url_validator `{Platform} : ValidatorFunc :=
  fun value param =>
    match urlParse (Sprint value) with
    | Some _ => Some (errorString "invalid URL format")
    | None => None
    end.

Definition range_validator `{Platform} : ValidatorFunc :=
  fun value param =>
    match strings.Split param "," with
    | [part0; part1] =>
        match strconv.Atoi (strings.TrimSpace part0),
              strconv.Atoi (strings.TrimSpace part1) with
        | Ok min, Ok max =>
            match strconv.Atoi (Sprint value) with
            | Err _ => Some (errorString "value must be an integer for range validation")
            | Ok val =>
                if (val <? min) || (max <? val)
                then Some (errorString ("value must be between " ++ strconv.Itoa min
                                        ++ " and " ++ strconv.Itoa max))
                else None
            end
        | _, _ => Some (errorString "range parameters must be integers")
        end
    | _ => Some (errorString "range validator requires min,max parameters")
    end.

Definition email_validator `{Platform} : ValidatorFunc :=
  fun value param =>
    if emailMatch (Sprint value) then None
    else Some (errorString "invalid email format").

Definition min_validator `{Platform} : ValidatorFunc :=
  fun value param =>
    match strconv.Atoi param with
    | Err _ => Some (errorString "min parameter must be an integer")
    | Ok minVal =>
        match strconv.Atoi (Sprint value) with
        | Err _ => Some (errorString "value must be an integer for min validation")
        | Ok val =>
            if val <? minVal
            then Some (errorString ("value must be at least " ++ strconv.Itoa minVal))
            else None
        end
    end.

Definition max_validator `{Platform} : ValidatorFunc :=
  fun value param =>
    match strconv.Atoi param with
    | Err _ => Some (errorString "max parameter must be an integer")
    | Ok maxVal =>
        match strconv.Atoi (Sprint value) with
        | Err _ => Some (errorString "value must be an integer for max validation")
        | Ok val =>
            if maxVal <? val
            then Some (errorString ("value must be at most " ++ strconv.Itoa maxVal))
            else None
        end
    end.

Definition getBuiltinValidators `{Platform} : gmap string ValidatorFunc :=
  list_to_map
    [ ("required", required_validator);
      ("url", url_validator);
      ("range", range_validator);
      ("email", email_validator);
      ("min", min_validator);
      ("max", max_validator) ].

(** The builder. *)
Definition New `{Platform} : Loader :=
  {| sources := []; validators := getBuiltinValidators; strict := false |}.

Definition AddSource (l : Loader) (s : Source) : Loader :=
  {| sources := sources l ++ [s]; validators := validators l; strict := strict l |}.

Definition AddFile `{Platform} (l : Loader) (path : string) : Loader :=
  AddSource l (FileSource path).

Definition AddEnv `{Platform} (l : Loader) : Loader := AddSource l EnvSource.

Definition AddMap (l : Loader) (data : entries) : Loader :=
  AddSource l (MapSource data).

Definition EnableValidation (l : Loader) : Loader := l.

Definition Strict (l : Loader) : Loader :=
  {| sources := sources l; validators := validators l; strict := true |}.

Definition AddValidator (l : Loader) (name : string) (validator : ValidatorFunc)
  : Loader :=
  {| sources := sources l;
     validators := <[name := validator]> (validators l);
     strict := strict l |}.

(** ** The target of [Load] *)

(** One field of the target struct as reflection shows it: the
    [StructField] data that the binder reads (name, tag as its key/value
    pairs in order, kind of the field's type), whether the field can be
    set (it is exported), and the value it holds. *)
Record structField := {
  Name : string;
  Tag : list (string * string);
  FieldKind : reflect.Kind;
  CanSet : bool;
  Val : value
}.

Definition setVal (field : structField) (v : value) : structField :=
  {| Name := Name field; Tag := Tag field; FieldKind := FieldKind field;
     CanSet := CanSet field; Val := v |}.

(** [StructTag.Get]: the value of the first pair with that key, or the
    empty string. *)
Fixpoint TagGet (tag : list (string * string)) (key : string) : string :=
  match tag with
  | [] => ""
  | (k, v) :: tag' => if decide (k = key) then v else TagGet tag' key
  end.

(** What the argument of [Load] can be: a value that is neither a struct
    nor a pointer ([Plain VNil] is the nil interface), a struct, or a
    pointer ([None] is the nil pointer). *)
Inductive object : Type :=
  | Plain (v : value)
  | StructOf (fields : list structField)
  | PointerTo (target : option object).

(** [reflect.Value]: [None] is the zero Value. *)
Definition ValueOf (config : object) : option object :=
  match config with
  | Plain VNil => None
  | _ => Some config
  end.

Definition KindOf (v : option object) : reflect.Kind :=
  match v with
  | None => reflect.Invalid
  | Some (Plain VNil) => reflect.Invalid
  | Some (Plain (VBool _)) => reflect.Bool
  | Some (Plain (VInt _)) => reflect.Int
  | Some (Plain (VFloat _)) => reflect.Float64
  | Some (Plain (VString _)) => reflect.String
  | Some (Plain (VSlice _)) => reflect.Slice
  | Some (Plain (VMap _)) => reflect.Map
  | Some (StructOf _) => reflect.Struct
  | Some (PointerTo _) => reflect.Pointer
  end.

(** [Value.Elem] of a pointer: the zero Value for the nil pointer. *)
Definition Elem (v : option object) : option object :=
  match v with
  | Some (PointerTo target) => target
  | _ => None
  end.

(** ** Binding *)

Record fieldConfig := {
  cfgKey : string;
  envKey : string;
  validate : string;
  defaultValue : string
}.

Definition getFieldConfig (l : Loader) (field : structField) : fieldConfig :=
  {| cfgKey := TagGet (Tag field) "cfg";
     envKey := TagGet (Tag field) "env";
     validate := TagGet (Tag field) "validate";
     defaultValue := TagGet (Tag field) "default" |}.

(** [findValue]: [VNil] is the [nil] it returns when nothing is found. *)
Definition findValue `{Platform} (l : Loader) (data : gmap string value)
    (cfg : fieldConfig) : value :=
  match (if decide (envKey cfg = "") then None
         else data !! ToLower (envKey cfg)) with
  | Some value => value
  | None =>
      match (if decide (cfgKey cfg = "") then None else data !! cfgKey cfg) with
      | Some value => value
      | None => VNil
      end
  end.

Definition intBits (k : reflect.Kind) : Z :=
  match k with
  | reflect.Int8 => 8
  | reflect.Int16 => 16
  | reflect.Int32 => 32
  | _ => 64
  end.

(** [setValue]: the field after the assignment, or the error. *)
Definition setValue `{Platform} (l : Loader) (field : structField) (v : value)
  : Result structField :=
  match FieldKind field with
  | reflect.String => Ok (setVal field (VString (Sprint v)))
  | reflect.Int | reflect.Int8 | reflect.Int16 | reflect.Int32 | reflect.Int64 =>
      match strconv.ParseInt (Sprint v) with
      | Ok i => Ok (setVal field (VInt (reflect.wrapInt (intBits (FieldKind field)) i)))
      | Err err => Err err
      end
  | reflect.Bool =>
      match strconv.ParseBool (Sprint v) with
      | Ok b => Ok (setVal field (VBool b))
      | Err err => Err err
      end
  | reflect.Float32 =>
      match ParseFloat (Sprint v) with
      | Ok f => Ok (setVal field (VFloat (toFloat32 f)))
      | Err err => Err err
      end
  | reflect.Float64 =>
      match ParseFloat (Sprint v) with
      | Ok f => Ok (setVal field (VFloat f))
      | Err err => Err err
      end
  | _ => Ok field
  end.

(** [validateField]: the loop over the comma-separated rules. *)
Fixpoint validateRules `{Platform} (l : Loader) (fieldName : string) (v : value)
    (rules : list string) : option error :=
  match rules with
  | [] => None
  | rule :: rules' =>
      let rule := strings.TrimSpace rule in
      let parts := strings.SplitN2 rule ":" in
      let ruleName := hd "" parts in
      let param := match parts with _ :: p :: _ => p | _ => "" end in
      match validators l !! ruleName with
      | Some validator =>
          match validator v param with
          | Some err => Some (ValidationError fieldName v rule (Error err))
          | None => validateRules l fieldName v rules'
          end
      | None => validateRules l fieldName v rules'
      end
  end.

Definition validateField `{Platform} (l : Loader) (fieldName : string) (v : value)
    (rules : string) : option error :=
  validateRules l fieldName v (strings.Split rules ",").

(** One iteration of the loop of [applyToStruct]: the field after it, or
    the error that [applyToStruct] returns from inside the loop. *)
Definition applyField `{Platform} (l : Loader) (data : gmap string value)
    (field : structField) : Result structField :=
  if negb (CanSet field) then Ok field
  else
    let cfg := getFieldConfig l field in
    let value := findValue l data cfg in
    match value with
    | VNil =>
        if decide (defaultValue cfg = "") then Ok field
        else
          let parsed := parseValue (defaultValue cfg) in
          match setValue l field parsed with
          | Err err =>
              Err (Errorf_w ("failed to set default for field " ++ Name field ++ ": ") err)
          | Ok field' => Ok field'
          end
    | _ =>
        match (if decide (validate cfg = "") then None
               else validateField l (Name field) value (validate cfg)) with
        | Some err => Err err
        | None =>
            match setValue l field value with
            | Err err => Err (Errorf_w ("failed to set field " ++ Name field ++ ": ") err)
            | Ok field' => Ok field'
            end
        end
    end.

(** The loop [for i := 0; i < v.NumField(); i++]: the fields as the loop
    leaves them, and the error it returned with, if any. *)
Fixpoint applyFields `{Platform} (l : Loader) (data : gmap string value)
    (fields : list structField) : list structField * option error :=
  match fields with
  | [] => ([], None)
  | field :: rest =>
      match applyField l data field with
      | Err err => (field :: rest, Some err)
      | Ok field' =>
          let '(rest', err) := applyFields l data rest in
          (field' :: rest', err)
      end
  end.

(** [applyToStruct]: the target after the call and the returned error. *)
Definition applyToStruct `{Platform} (l : Loader) (config : object)
    (data : gmap string value) : object * option error :=
  let v := ValueOf config in
  if bool_decide (KindOf v ≠ reflect.Pointer \/ KindOf (Elem v) ≠ reflect.Struct)
  then (config, Some (errorString "config must be a pointer to struct"))
  else
    match config with
    | PointerTo (Some (StructOf fields)) =>
        let '(fields', err) := applyFields l data fields in
        (PointerTo (Some (StructOf fields')), err)
    | _ => (config, None) (* not reached: the kinds were checked *)
    end.

(** The loop of [Load] over the sources, from the accumulator [merged]. *)
Fixpoint mergeSources `{Platform} (srcs : list Source) (os : OS)
    (merged : gmap string value) : Result (gmap string value) :=
  match srcs with
  | [] => Ok merged
  | source :: srcs' =>
      match Source.Load source os with
      | Err err => Err (Errorf_w "failed to load from source: " err)
      | Ok data => mergeSources srcs' os (mergeMaps merged data)
      end
  end.

(** [Loader.Load]. *)
Definition Load `{Platform} (l : Loader) (os : OS) (config : object)
  : object * option error :=
  match mergeSources (sources l) os ∅ with
  | Err err => (config, Some err)
  | Ok merged => applyToStruct l config merged
  end.

(** ** What the specification speaks of *)

(** The root-to-leaf paths of a nested mapping, as the sequences of keys
    from the root to each value that is not itself a mapping, with that
    value; in [range] order. *)
Fixpoint leavesOf (v : value) : list (list string * value) :=
  match v with
  | VMap m =>
      concat (map (fun '(k, v') =>
                     match v' with
                     | VMap _ => map (fun pv => (k :: pv.1, pv.2)) (leavesOf v')
                     | _ => [([k], v')]
                     end) m)
  | _ => []
  end.

Definition leaves (m : entries) : list (list string * value) := leavesOf (VMap m).


Definition isMap (v : value) : bool :=
  match v with VMap _ => true | _ => false end.

(** The value that the last of the maps [outs] holding [k] has for it. *)
Fixpoint lastValue (outs : list (gmap string value)) (k : string) : option value :=
  match outs with
  | [] => None
  | out :: outs' =>
      match lastValue outs' k with
      | Some v => Some v
      | None => out !! k
      end
  end.

(** A source with another declared priority. *)
Definition withPriority (s : Source) (p : Z) : Source :=
  {| Source.Load := Source.Load s; Source.Priority := p |}.

(** Value resolution finds nothing: the field's env-key is undeclared or
    its lower-cased form is absent from the namespace, and its
    config-key is undeclared or absent. *)
Definition unresolved `{Platform} (data : gmap string value) (cfg : fieldConfig) : Prop :=
  (envKey cfg = "" \/ data !! ToLower (envKey cfg) = None)
  /\ (cfgKey cfg = "" \/ data !! cfgKey cfg = None).

(** The only argument that [applyToStruct] accepts: a pointer that is
    not nil, to a struct. *)
Definition pointerToStruct (fields : list structField) : object :=
  PointerTo (Some (StructOf fields)).

(** A call that returned an error. *)
Definition isErr {A : Type} (r : Result A) : Prop := exists e, r = Err e.

(** The rule name of one clause of a validate expression, as
    [validateField] reads it. *)
Definition ruleName (clause : string) : string :=
  hd "" (strings.SplitN2 (strings.TrimSpace clause) ":").

(** The parameter of one clause of a validate expression: the text
    behind its first colon. *)
Definition ruleParam (clause : string) : string :=
  match strings.SplitN2 (strings.TrimSpace clause) ":" with
  | _ :: p :: _ => p
  | _ => ""
  end.

(** ** Auxiliary definitions *)

(** The key that the code builds along a path: [joinKey] at every step. *)
Definition pathKey (prefix : string) (path : list string) : string :=
  foldl joinKey prefix path.

Definition keyed (prefix : string) (pv : list string * value) : string * value :=
  (pathKey prefix pv.1, pv.2).

(** The loop body of [flattenMap]. *)
Definition flattenStep (prefix : string) (result : gmap string value)
    (kv : string * value) : gmap string value :=
  let '(k, v) := kv in
  let key := joinKey prefix k in
  match v with
  | VMap _ => mergeMaps result (flatten v key)
  | _ => <[key := v]> result
  end.


(** The namespace [out] has a value other than nil for the key [k]. *)
Definition heldAt (k : string) (out : gmap string value) : Prop :=
  exists v, out !! k = Some v /\ v <> VNil.

(** Digits, for the printing and parsing of integers. *)
Definition isDigit (c : ascii) : bool :=
  match strconv.digit c with Some _ => true | None => false end.

Fixpoint allChars (p : ascii -> bool) (s : string) : bool :=
  match s with
  | EmptyString => true
  | String c s' => p c && allChars p s'
  end.

Abbreviation allDigits := (allChars isDigit).

(** A byte that white space neither is nor, in UTF-8, contains. *)
Definition plain (c : ascii) : bool :=
  negb (strings.asciiSpace c) && (strings.byte c <? 128).

(** The number that a string of digits spells behind the digits of [n]. *)
Fixpoint spelled (s : string) (n : Z) : Z :=
  match s with
  | EmptyString => n
  | String c s' => spelled s' (n * 10 + default 0 (strconv.digit c))
  end.

(** ** Definitions for the further properties *)

(** The kinds of the signed integer case of [setValue]. *)
Definition isIntKind (k : reflect.Kind) : bool :=
  match k with
  | reflect.Int | reflect.Int8 | reflect.Int16 | reflect.Int32 | reflect.Int64 => true
  | _ => false
  end.

(** The kinds that [setValue] has a case for. *)
Definition supportedKind (k : reflect.Kind) : bool :=
  match k with
  | reflect.String | reflect.Bool | reflect.Float32 | reflect.Float64 => true
  | _ => isIntKind k
  end.

(** The sources that the builder registers. *)
Definition builtinSource `{Platform} (s : Source) : Prop :=
  (exists data, s = MapSource data) \/ (exists path, s = FileSource path)
  \/ s = EnvSource.

(** The loaders that the exported functions build. *)
Inductive Built `{Platform} : Loader -> Prop :=
  | Built_New : Built New
  | Built_AddFile l path : Built l -> Built (AddFile l path)
  | Built_AddEnv l : Built l -> Built (AddEnv l)
  | Built_AddMap l data : Built l -> Built (AddMap l data)
  | Built_EnableValidation l : Built l -> Built (EnableValidation l)
  | Built_Strict l : Built l -> Built (Strict l)
  | Built_AddValidator l name validator : Built l -> Built (AddValidator l name validator).

(** A namespace none of whose values is a mapping. *)
Definition flatNamespace (data : gmap string value) : Prop :=
  forall k v, data !! k = Some v -> isMap v = false.

(** The text that [%v] prints for a boolean. *)
Definition boolText (b : bool) : string := if b then "true" else "false".

(** An operating system with one file, whose extension is in upper case. *)
Definition fileOS : OS :=
  {| Environ := [];
     ReadFile := fun path =>
       if String.eqb path "app.config.TOML" then FileData "port = 8080"
       else FileNotExist |}.

(** ** A reference platform

    An instance of [Platform] on which the model runs on the data of the
    repository's tests.  It is a sample, not Go's library: it reads and
    prints plain decimal literals (an optional sign, digits and at most
    one point, up to 2^53 in the digits and 18 digits after the point,
    where dividing the integer by the power of ten rounds as Go's parser
    does), keeps floats unchanged when storing them in a [float32] field,
    quotes without escaping, lower-cases ASCII only, accepts every URL,
    implements the e-mail pattern, and has no decoders.  The theorems
    about the package hold for every platform; only the examples at the
    end of the file run on this one. *)

Module Reference.

Definition decimalFloat (neg : bool) (mant : Z) (k : nat) : float :=
  let f := PrimFloat.div (PrimFloat.of_uint63 (Uint63.of_Z mant))
                         (PrimFloat.of_uint63 (Uint63.of_Z (10 ^ Z.of_nat k))) in
  if neg then PrimFloat.opp f else f.

(** Digits with at most one point: the integer the digits spell, how
    many there are, and how many follow the point. *)
Fixpoint scanDecimal (s : string) (seenPoint : bool) (mant : Z) (nd k : nat)
  : option (Z * nat * nat) :=
  match s with
  | EmptyString => Some (mant, nd, k)
  | String c s' =>
      if Ascii.eqb c "." then
        if seenPoint then None else scanDecimal s' true mant nd k
      else
        match strconv.digit c with
        | Some d =>
            scanDecimal s' seenPoint (mant * 10 + d) (S nd) (if seenPoint then S k else k)
        | None => None
        end
  end.

Definition parseFloat (s0 : string) : Result float :=
  let '(neg, s) :=
    match s0 with
    | String c s' =>
        if Ascii.eqb c "+" then (false, s')
        else if Ascii.eqb c "-" then (true, s')
        else (false, s0)
    | EmptyString => (false, s0)
    end in
  match scanDecimal s false 0 0 0 with
  | Some (mant, nd, k) =>
      if bool_decide (0 < nd)%nat && (mant <? 2 ^ 53) && bool_decide (k <= 18)%nat
      then Ok (decimalFloat neg mant k)
      else Err (strconv.syntaxError "ParseFloat" s0)
  | None => Err (strconv.syntaxError "ParseFloat" s0)
  end.

(** [n] as [k] decimal digits, with leading zeros. *)
Fixpoint fixedDigits (k : nat) (n : Z) (acc : string) : string :=
  match k with
  | O => acc
  | S k' => fixedDigits k' (n / 10) (String (strconv.digitChar (n mod 10)) acc)
  end.

Definition decimalString (neg : bool) (mant : Z) (k : nat) : string :=
  let scale := 10 ^ Z.of_nat k in
  (if neg then "-" else "")
  ++ strconv.Itoa (mant / scale)
  ++ match k with
     | O => ""
     | _ => "." ++ fixedDigits k (mant mod scale) ""
     end.

(** The shortest decimal literal with [k] to [k + fuel] digits after the
    point that reads back as [f], for [f = m * 2^e]. *)
Fixpoint shortest (fuel k : nat) (f : float) (neg : bool) (m e : Z) : string :=
  let scaled := m * 10 ^ Z.of_nat k in
  let mant :=
    if 0 <=? e then scaled * 2 ^ e
    else (2 * scaled + 2 ^ (- e)) / 2 ^ (1 - e) in
  if (mant <? 2 ^ 53) && PrimFloat.eqb (decimalFloat neg mant k) f
  then decimalString neg mant k
  else match fuel with
       | O => "NaN"
       | S fuel' => shortest fuel' (S k) f neg m e
       end.

Definition formatFloat (f : float) : string :=
  match Prim2SF f with
  | S754_zero s => if s then "-0" else "0"
  | S754_infinity s => if s then "-Inf" else "+Inf"
  | S754_nan => "NaN"
  | S754_finite s m e => shortest 18 0 f s (Z.pos m) e
  end.

Definition quote (s : string) : string :=
  let q := String (ascii_of_nat 34) EmptyString in q ++ s ++ q.

Definition inClass (letters digits : bool) (others : string) (c : ascii) : bool :=
  let n := strings.byte c in
  (letters && (((65 <=? n) && (n <=? 90)) || ((97 <=? n) && (n <=? 122))))
  || (digits && (48 <=? n) && (n <=? 57))
  || existsb (Ascii.eqb c) (list_ascii_of_string others).

Definition allIn (p : ascii -> bool) (s : string) : bool :=
  forallb p (list_ascii_of_string s).

(** The pattern
    [^[a-zA-Z0-9._%+-]+@[a-zA-Z0-9.-]+\.[a-zA-Z]{2,}$]: neither class
    has [@], and the last class has no point, so the text splits at
    its only [@] and at the last point behind it. *)
Definition matchEmail (s : string) : bool :=
  match strings.Cut s "@" with
  | None => false
  | Some (locpart, rest) =>
      let i := strings.LastIndex rest "." in
      let domain := String.substring 0 (Z.to_nat i) rest in
      let tld := strings.sliceFrom rest (i + 1) in
      negb (bool_decide (locpart = "")) && allIn (inClass true true "._%+-") locpart
      && (0 <=? i)
      && negb (bool_decide (domain = "")) && allIn (inClass true true ".-") domain
      && (2 <=? Z.of_nat (String.length tld)) && allIn (inClass true false "") tld
  end.

Definition platform : Platform :=
  {| ParseFloat := parseFloat;
     FormatFloat := formatFloat;
     toFloat32 := fun f => f;
     Quote := quote;
     unicodeToLower := fun s => strings.mapBytes strings.lowerByte s;
     urlParse := fun _ => None;
     emailMatch := matchEmail;
     jsonUnmarshal := fun _ => Err (errorString "no decoder");
     yamlUnmarshal := fun _ => Err (errorString "no decoder") |}.

End Reference.

(** The operating system and the fields of the repository's tests. *)
Definition testOS : OS :=
  {| Environ := ["HOME=/root"; "TEST_PORT=9090"];
     ReadFile := fun _ => FileNotExist |}.

Definition testField (name : string) (tag : list (string * string))
    (kind : reflect.Kind) (val : value) : structField :=
  {| Name := name; Tag := tag; FieldKind := kind; CanSet := true; Val := val |}.

(** * Properties *)

#[local] Arguments String.append !_ _ / : simpl nomatch.

(** ** Induction on nested values *)

Section nested_induction.
Variable P : value -> Prop.
Hypothesis HNil : P VNil.
Hypothesis HBool : forall b, P (VBool b).
Hypothesis HInt : forall i, P (VInt i).
Hypothesis HFloat : forall f, P (VFloat f).
Hypothesis HString : forall s, P (VString s).
Hypothesis HSlice : forall l, Forall P l -> P (VSlice l).
Hypothesis HMap : forall m, Forall (fun kv => P kv.2) m -> P (VMap m).

Fixpoint value_nested_ind (v : value) : P v :=
  match v with
  | VNil => HNil
  | VBool b => HBool b
  | VInt i => HInt i
  | VFloat f => HFloat f
  | VString s => HString s
  | VSlice l =>
      HSlice l ((fix go (l : list value) : Forall P l :=
                   match l with
                   | [] => List.Forall_nil P
                   | x :: l' => @List.Forall_cons _ P x l' (value_nested_ind x) (go l')
                   end) l)
  | VMap m =>
      HMap m ((fix go (m : entries) : Forall (fun kv => P kv.2) m :=
                 match m with
                 | [] => List.Forall_nil _
                 | kv :: m' =>
                     @List.Forall_cons _ (fun kv => P kv.2) kv m'
                       (value_nested_ind kv.2) (go m')
                 end) m)
  end.
End nested_induction.

(** ** Merging *)

Lemma mergeMaps_union (dst src : gmap string value) : mergeMaps dst src = src ∪ dst.
Proof.
  unfold mergeMaps.
  apply (map_fold_weak_ind (fun r (m : gmap string value) => r = m ∪ dst)).
  - by rewrite (left_id_L ∅ (∪)).
  - intros k v m r _ ->. by rewrite insert_union_l.
Qed.

Lemma lookup_mergeMaps (dst src : gmap string value) (k : string) :
  mergeMaps dst src !! k = match src !! k with Some v => Some v | None => dst !! k end.
Proof.
  rewrite mergeMaps_union, lookup_union.
  by destruct (src !! k), (dst !! k).
Qed.

Lemma lookup_foldl_mergeMaps (outs : list (gmap string value)) :
  forall (acc : gmap string value) (k : string),
    foldl mergeMaps acc outs !! k
    = match lastValue outs k with Some v => Some v | None => acc !! k end.
Proof.
  induction outs as [|out outs IH]; intros acc k; [done|].
  simpl. rewrite IH, lookup_mergeMaps.
  by destruct (lastValue outs k), (out !! k).
Qed.

Lemma lastValue_last (outs : list (gmap string value)) (k : string) :
  forall (i : nat) out v,
    outs !! i = Some out -> out !! k = Some v ->
    (forall (j : nat) out', (i < j)%nat -> outs !! j = Some out' -> out' !! k = None) ->
    lastValue outs k = Some v.
Proof.
  induction outs as [|o outs IH]; intros i out v Hi Hv Hlater; [done|].
  simpl. destruct i as [|i]; simpl in Hi.
  - injection Hi as ->.
    assert (lastValue outs k = None) as ->; [|done].
    clear IH. assert (forall (j : nat) out', outs !! j = Some out' -> out' !! k = None) as Hall.
    { intros j out' Hj. apply (Hlater (S j)); [lia|done]. }
    clear Hlater. induction outs as [|o' outs IH]; [done|].
    simpl. rewrite IH; [apply (Hall 0%nat); done|].
    intros j out' Hj. by apply (Hall (S j)).
  - rewrite (IH i out v Hi Hv); [done|].
    intros j out' Hij Hj. apply (Hlater (S j)); [lia|done].
Qed.

Lemma lastValue_none (outs : list (gmap string value)) (k : string) :
  (forall out, out ∈ outs -> out !! k = None) -> lastValue outs k = None.
Proof.
  induction outs as [|o outs IH]; intros Hall; [done|].
  simpl. rewrite IH; [apply Hall; left|].
  intros out Hin. apply Hall. by right.
Qed.

Section properties.
Context `{Platform}.

Lemma mergeSources_loaded (srcs : list Source) (os : OS)
    (outs : list (gmap string value)) :
  Forall2 (fun s out => Source.Load s os = Ok out) srcs outs ->
  forall acc, mergeSources srcs os acc = Ok (foldl mergeMaps acc outs).
Proof.
  induction 1 as [|s out srcs outs Hs _ IH]; intros acc; [done|].
  simpl. by rewrite Hs, IH.
Qed.

Lemma mergeSources_failed (pre post : list Source) (s : Source) (os : OS) (e : error) :
  Forall (fun s' => exists out, Source.Load s' os = Ok out) pre ->
  Source.Load s os = Err e ->
  forall acc,
    mergeSources (pre ++ s :: post) os acc
    = Err (Errorf_w "failed to load from source: " e).
Proof.
  induction 1 as [|s' pre [out Hs'] _ IH]; intros Hs acc; simpl.
  - by rewrite Hs.
  - rewrite Hs'. by apply IH.
Qed.

(** C1.  When every registered source loads, [Load] binds from one
    merged namespace that maps each key to the value of the last
    source, in registration order, whose output has the key (and has
    no other keys); giving the sources any other priorities leaves the
    merged namespace the same. *)
Theorem merge_registration_order (srcs : list Source) (os : OS)
    (outs : list (gmap string value)) :
  Forall2 (fun s out => Source.Load s os = Ok out) srcs outs ->
  exists merged,
    mergeSources srcs os ∅ = Ok merged
    /\ (forall l config,
          sources l = srcs -> Load l os config = applyToStruct l config merged)
    /\ (forall k (i : nat) out v,
          outs !! i = Some out -> out !! k = Some v ->
          (forall (j : nat) out',
             (i < j)%nat -> outs !! j = Some out' -> out' !! k = None) ->
          merged !! k = Some v)
    /\ (forall k, (forall out, out ∈ outs -> out !! k = None) -> merged !! k = None)
    /\ (forall prio : Source -> Z,
          mergeSources (map (fun s => withPriority s (prio s)) srcs) os ∅ = Ok merged).
Proof.
  intros Hload. exists (foldl mergeMaps ∅ outs).
  pose proof (mergeSources_loaded srcs os outs Hload ∅) as Hm.
  repeat split.
  - exact Hm.
  - intros l config Hl. unfold Load. by rewrite Hl, Hm.
  - intros k i out v Hi Hv Hlater.
    by rewrite lookup_foldl_mergeMaps, (lastValue_last outs k i out v).
  - intros k Hnone. by rewrite lookup_foldl_mergeMaps, lastValue_none.
  - intros prio. apply mergeSources_loaded.
    clear Hm. induction Hload; constructor; auto.
Qed.
End properties.

(** ** Flattening *)

Lemma flatten_VMap (m : entries) (prefix : string) :
  flatten (VMap m) prefix = foldl (flattenStep prefix) ∅ m.
Proof. reflexivity. Qed.

(** [flattenMap] satisfies the equation that the Go function is written
    as. *)
Lemma flattenMap_unfold (m : entries) (prefix : string) :
  flattenMap m prefix =
  foldl (fun result '(k, v) =>
           let key := joinKey prefix k in
           match v with
           | VMap nested => mergeMaps result (flattenMap nested key)
           | _ => <[key := v]> result
           end) ∅ m.
Proof.
  unfold flattenMap. rewrite flatten_VMap. generalize (∅ : gmap string value).
  induction m as [|[k v] m IH]; intros acc; [done|].
  simpl. rewrite <- IH. by destruct v.
Qed.

Lemma leavesOf_VMap_cons (k : string) (v : value) (m : entries) :
  leavesOf (VMap ((k, v) :: m)) =
  ((if isMap v then map (fun pv => (k :: pv.1, pv.2)) (leavesOf v) else [([k], v)])
   ++ leavesOf (VMap m))%list.
Proof. simpl. by destruct v. Qed.

(** The flat map is the list of the leaves under their keys, a later
    leaf replacing an earlier one with the same key. *)
Lemma flatten_keyed (v : value) : forall prefix,
  flatten v prefix = list_to_map (reverse (map (keyed prefix) (leavesOf v))).
Proof.
  induction v as [| | | | | |m IH] using value_nested_ind; intros prefix; try done.
  rewrite flatten_VMap.
  enough (forall acc : gmap string value,
            foldl (flattenStep prefix) acc m
            = list_to_map (reverse (map (keyed prefix) (leavesOf (VMap m)))) ∪ acc) as ->.
  { by rewrite (right_id_L ∅ (∪)). }
  induction m as [|[k v] m IHm]; intros acc.
  { simpl. by rewrite (left_id_L ∅ (∪)). }
  apply Forall_cons in IH as [IHv IH].
  rewrite leavesOf_VMap_cons, map_app, reverse_app, list_to_map_app.
  simpl foldl. rewrite (IHm IH). rewrite <- (assoc_L (∪)). f_equal.
  unfold flattenStep.
  destruct v; try (simpl; by rewrite insert_union_singleton_l).
  rewrite mergeMaps_union. f_equal. cbn [snd] in IHv. rewrite (IHv (joinKey prefix k)).
  cbn [isMap]. by rewrite map_map.
Qed.

Lemma leavesOf_not_map (v : value) : Forall (fun pv => isMap pv.2 = false) (leavesOf v).
Proof.
  induction v as [| | | | | |m IH] using value_nested_ind; try by constructor.
  induction m as [|[k v] m IHm]; [by constructor|].
  apply Forall_cons in IH as [IHv IH].
  rewrite leavesOf_VMap_cons. apply Forall_app. split; [|by apply IHm].
  destruct v; try by repeat constructor.
  cbn [isMap snd] in *. by apply Forall_map.
Qed.

Lemma leavesOf_path_cons (v : value) :
  Forall (fun pv => exists k rest, pv.1 = k :: rest) (leavesOf v).
Proof.
  destruct v as [| | | | | |m]; try by constructor.
  induction m as [|[k v] m IHm]; [by constructor|].
  rewrite leavesOf_VMap_cons. apply Forall_app. split; [|done].
  destruct (isMap v).
  - apply Forall_map, Forall_forall. intros pv _. by exists k, pv.1.
  - repeat constructor. by exists k, [].
Qed.


Lemma append_nil_r (a : string) : a ++ "" = a.
Proof. induction a as [|x a IH]; simpl; [done|by rewrite IH]. Qed.





Lemma elem_of_keyed_leaves (m : entries) (prefix k : string) (v : value) :
  (k, v) ∈ reverse (map (keyed prefix) (leaves m)) <->
  exists path, (path, v) ∈ leaves m /\ k = pathKey prefix path.
Proof.
  rewrite elem_of_reverse, list_elem_of_fmap. split.
  - intros ([path v'] & [= -> ->] & Hel). by exists path.
  - intros (path & Hel & ->). by exists (path, v).
Qed.

Lemma flattenMap_keyed (m : entries) (prefix : string) :
  flattenMap m prefix = list_to_map (reverse (map (keyed prefix) (leaves m))).
Proof. apply flatten_keyed. Qed.

Lemma flattenMap_lookup_leaf (m : entries) (prefix k : string) (v : value) :
  flattenMap m prefix !! k = Some v ->
  isMap v = false /\ exists path, (path, v) ∈ leaves m /\ k = pathKey prefix path.
Proof.
  rewrite flattenMap_keyed. intros Hv.
  apply elem_of_list_to_map_2, elem_of_keyed_leaves in Hv as (path & Hel & ->).
  split; [|by exists path].
  pose proof (leavesOf_not_map (VMap m)) as Hnm.
  rewrite Forall_forall in Hnm. by apply (Hnm (path, v)).
Qed.






Lemma leaves_flat (l : entries) :
  Forall (fun kv => isMap kv.2 = false) l -> map (keyed "") (leaves l) = l.
Proof.
  unfold leaves. induction 1 as [|[k v] l Hv _ IH]; [done|].
  rewrite leavesOf_VMap_cons. cbn [snd] in Hv. rewrite Hv.
  rewrite map_app, IH. done.
Qed.

(** C6.  Flattening is idempotent: the result of [flattenMap], taken in
    any [range] order, flattens under the empty prefix to itself. *)
Theorem flattenMap_idempotent (m l : entries) (prefix : string) :
  l ≡ₚ map_to_list (flattenMap m prefix) ->
  flattenMap l "" = flattenMap m prefix.
Proof.
  intros Hperm.
  assert (Forall (fun kv => isMap kv.2 = false) l) as Hflat.
  { rewrite Hperm. apply Forall_forall. intros [k v] Hkv.
    apply elem_of_map_to_list in Hkv.
    by apply flattenMap_lookup_leaf in Hkv as [? _]. }
  rewrite (flattenMap_keyed l), (leaves_flat l Hflat).
  rewrite <- (list_to_map_to_list (flattenMap m prefix)).
  apply list_to_map_proper.
  - rewrite fmap_reverse, reverse_Permutation, Hperm. apply NoDup_fst_map_to_list.
  - by rewrite reverse_Permutation.
Qed.


(** ** Binding *)

Section binding.
Context `{Platform}.

Lemma findValue_unresolved (l : Loader) (data : gmap string value) (cfg : fieldConfig) :
  unresolved data cfg -> findValue l data cfg = VNil.
Proof.
  intros [Henv Hcfg]. unfold findValue.
  assert ((if decide (envKey cfg = "") then None
           else data !! ToLower (envKey cfg)) = None) as ->.
  { destruct (decide (envKey cfg = "")); [done|]. by destruct Henv. }
  assert ((if decide (cfgKey cfg = "") then None else data !! cfgKey cfg) = None) as ->.
  { destruct (decide (cfgKey cfg = "")); [done|]. by destruct Hcfg. }
  done.
Qed.

Lemma applyFields_cons_ok (l : Loader) (data : gmap string value)
    (f f' : structField) (rest : list structField) :
  applyField l data f = Ok f' ->
  applyFields l data (f :: rest)
  = ((f' :: (applyFields l data rest).1), (applyFields l data rest).2).
Proof. intros Hf. simpl. rewrite Hf. by destruct (applyFields l data rest). Qed.

Lemma applyFields_cons_err (l : Loader) (data : gmap string value)
    (f : structField) (rest : list structField) (e : error) :
  applyField l data f = Err e ->
  applyFields l data (f :: rest) = (f :: rest, Some e).
Proof. intros Hf. simpl. by rewrite Hf. Qed.

Lemma applyFields_app_ok (l : Loader) (data : gmap string value)
    (pre pre' rest : list structField) :
  Forall2 (fun f f' => applyField l data f = Ok f') pre pre' ->
  applyFields l data (pre ++ rest)%list
  = ((pre' ++ (applyFields l data rest).1)%list, (applyFields l data rest).2).
Proof.
  induction 1 as [|f f' pre pre' Hf _ IH].
  - cbn [app]. by destruct (applyFields l data rest).
  - cbn [app]. rewrite (applyFields_cons_ok _ _ _ _ _ Hf), IH. done.
Qed.

(** A field after the loop is as it was or as its own iteration left
    it. *)
Lemma applyFields_lookup (l : Loader) (data : gmap string value)
    (fields : list structField) :
  forall (i : nat) f,
    fields !! i = Some f ->
    exists f', (applyFields l data fields).1 !! i = Some f'
               /\ (f' = f \/ applyField l data f = Ok f').
Proof.
  induction fields as [|g fields IH]; intros i f Hi; [done|].
  destruct (applyField l data g) as [g'|e] eqn:Hg.
  - rewrite (applyFields_cons_ok _ _ _ _ _ Hg). destruct i as [|i]; simpl in *.
    + injection Hi as <-. exists g'. auto.
    + by apply IH.
  - rewrite (applyFields_cons_err _ _ _ _ _ Hg). exists f. auto.
Qed.

(** The error of the loop is the error of one field's iteration. *)
Lemma applyFields_error (l : Loader) (data : gmap string value)
    (fields : list structField) (e : error) :
  (applyFields l data fields).2 = Some e ->
  exists (j : nat) f, fields !! j = Some f /\ applyField l data f = Err e.
Proof.
  induction fields as [|g fields IH]; intros He; [done|].
  destruct (applyField l data g) as [g'|e'] eqn:Hg.
  - rewrite (applyFields_cons_ok _ _ _ _ _ Hg) in He.
    destruct (IH He) as (j & f & ? & ?). by exists (S j), f.
  - rewrite (applyFields_cons_err _ _ _ _ _ Hg) in He.
    injection He as ->. by exists 0%nat, g.
Qed.

Lemma applyToStruct_pointerToStruct (l : Loader) (data : gmap string value)
    (fields : list structField) :
  applyToStruct l (pointerToStruct fields) data
  = (pointerToStruct (applyFields l data fields).1, (applyFields l data fields).2).
Proof.
  unfold applyToStruct, pointerToStruct. simpl.
  by destruct (applyFields l data fields).
Qed.

Lemma applyField_absent (l : Loader) (data : gmap string value) (field : structField) :
  unresolved data (getFieldConfig l field) ->
  defaultValue (getFieldConfig l field) = "" ->
  applyField l data field = Ok field.
Proof.
  intros Hun Hdef. unfold applyField.
  destruct (CanSet field); [|done]. cbn [negb].
  rewrite (findValue_unresolved _ _ _ Hun).
  by destruct (decide (defaultValue (getFieldConfig l field) = "")).
Qed.

(** C2.  A field for which value resolution finds nothing and whose
    default tag is empty is stepped over by the binder without an
    error and without an assignment, whatever its validate tag: after
    [Load] it holds the value it held before (the zero value of its
    type in a freshly allocated target), and an error that [Load]
    returns comes from another field. *)
Theorem absent_field_left_untouched (l : Loader) (os : OS)
    (merged : gmap string value) (fields : list structField) (i : nat)
    (field : structField) :
  mergeSources (sources l) os ∅ = Ok merged ->
  fields !! i = Some field ->
  unresolved merged (getFieldConfig l field) ->
  defaultValue (getFieldConfig l field) = "" ->
  applyField l merged field = Ok field
  /\ exists fields' err,
       Load l os (pointerToStruct fields) = (pointerToStruct fields', err)
       /\ fields' !! i = Some field
       /\ (forall e, err = Some e ->
             exists (j : nat) other,
               j <> i /\ fields !! j = Some other
               /\ applyField l merged other = Err e).
Proof.
  intros Hmerged Hi Hun Hdef.
  pose proof (applyField_absent l merged field Hun Hdef) as Hstep.
  split; [done|].
  exists (applyFields l merged fields).1, (applyFields l merged fields).2.
  unfold Load. rewrite Hmerged, applyToStruct_pointerToStruct.
  split; [done|]. split.
  - destruct (applyFields_lookup l merged fields i field Hi) as (f' & Hf' & [->|Hok]);
      [done|]. rewrite Hstep in Hok. by injection Hok as <-.
  - intros e He. destruct (applyFields_error l merged fields e He) as (j & other & Hj & Herr).
    exists j, other. split; [|done].
    intros ->. rewrite Hi in Hj. injection Hj as <-. by rewrite Hstep in Herr.
Qed.

(** *** Resolution order *)

Lemma findValue_env (l : Loader) (data : gmap string value) (cfg : fieldConfig)
    (v : value) :
  envKey cfg <> "" -> data !! ToLower (envKey cfg) = Some v ->
  findValue l data cfg = v.
Proof.
  intros Hne Hv. unfold findValue.
  destruct (decide (envKey cfg = "")); [done|]. by rewrite Hv.
Qed.

Lemma findValue_cfg (l : Loader) (data : gmap string value) (cfg : fieldConfig)
    (v : value) :
  envKey cfg = "" \/ data !! ToLower (envKey cfg) = None ->
  cfgKey cfg <> "" -> data !! cfgKey cfg = Some v ->
  findValue l data cfg = v.
Proof.
  intros Henv Hne Hv. unfold findValue.
  assert ((if decide (envKey cfg = "") then None
           else data !! ToLower (envKey cfg)) = None) as ->.
  { destruct (decide (envKey cfg = "")); [done|]. by destruct Henv. }
  destruct (decide (cfgKey cfg = "")); [done|]. by rewrite Hv.
Qed.

Lemma mergeSources_all_loaded (srcs : list Source) (os : OS) :
  forall acc merged,
    mergeSources srcs os acc = Ok merged ->
    Forall (fun s => exists out, Source.Load s os = Ok out) srcs.
Proof.
  induction srcs as [|s srcs IH]; intros acc merged Hm; [by constructor|].
  simpl in Hm. destruct (Source.Load s os) as [out|e] eqn:Hs; [|done].
  constructor; [by exists out|]. by eapply IH.
Qed.

Lemma mergeSources_total (srcs : list Source) (os : OS) :
  Forall (fun s => exists out, Source.Load s os = Ok out) srcs ->
  forall acc, exists merged, mergeSources srcs os acc = Ok merged.
Proof.
  induction 1 as [|s srcs [out Hs] _ IH]; intros acc; [by exists acc|].
  simpl. rewrite Hs. apply IH.
Qed.

(** The keys of the merged namespace are the keys of the sources'
    outputs, in whatever order the sources stand. *)
Lemma mergeSources_is_Some (srcs : list Source) (os : OS) (k : string) :
  forall acc merged,
    mergeSources srcs os acc = Ok merged ->
    (is_Some (merged !! k) <->
     is_Some (acc !! k)
     \/ exists s out, s ∈ srcs /\ Source.Load s os = Ok out /\ is_Some (out !! k)).
Proof.
  induction srcs as [|s srcs IH]; intros acc merged Hm; simpl in Hm.
  - injection Hm as <-. split; [by left|]. intros [?|(s & out & Hin & _)]; [done|].
    by apply not_elem_of_nil in Hin.
  - destruct (Source.Load s os) as [out|e] eqn:Hs; [|done].
    rewrite (IH _ _ Hm), lookup_mergeMaps. split.
    + intros [Hk|(s' & out' & Hin & Hs' & Hk)].
      * destruct (out !! k) as [v|] eqn:Hout; [|by left].
        right. exists s, out. split; [by left|]. by rewrite Hout.
      * right. exists s', out'. split; [by right|done].
    + intros [Hk|(s' & out' & Hin & Hs' & Hk)].
      * left. by destruct (out !! k).
      * apply elem_of_cons in Hin as [->|Hin].
        -- left. rewrite Hs in Hs'. injection Hs' as <-.
           destruct Hk as [v ->]. done.
        -- right. by exists s', out'.
Qed.

Lemma Cut_app (name val : string) (sep : ascii) :
  strings.Cut name sep = None ->
  strings.Cut (name ++ String sep val) sep = Some (name, val).
Proof.
  induction name as [|c name IH]; simpl.
  - by rewrite Ascii.eqb_refl.
  - destruct (Ascii.eqb c sep); [done|].
    destruct (strings.Cut name sep) as [[? ?]|]; [done|]. intros _. by rewrite IH.
Qed.

Lemma EnvSource_entry_keeps (k : string) (out : gmap string value) (env : string) :
  heldAt k out -> heldAt k (EnvSource_entry out env).
Proof.
  intros (v & Hv & Hnil). unfold EnvSource_entry.
  destruct (strings.SplitN2 env "=") as [|name [|val [|? ?]]]; try by exists v.
  destruct (decide (ToLower name = k)) as [<-|Hne].
  - destruct (parseValue val) eqn:Hp; eexists; by rewrite lookup_insert_eq.
  - destruct (parseValue val); exists v; by rewrite lookup_insert_ne.
Qed.

Lemma EnvSource_entry_sets (out : gmap string value) (name val : string) :
  strings.Cut name "=" = None ->
  heldAt (ToLower name) (EnvSource_entry out (name ++ String "=" val)).
Proof.
  intros Hcut. unfold EnvSource_entry, strings.SplitN2. rewrite (Cut_app _ _ _ Hcut).
  destruct (parseValue val) eqn:Hp; eexists; by rewrite lookup_insert_eq.
Qed.

(** The environment source files a variable under its lower-cased name. *)
Lemma EnvSource_lower_cases (environ : list string) (name val : string) :
  name ++ String "=" val ∈ environ ->
  strings.Cut name "=" = None ->
  forall out, heldAt (ToLower name) (foldl EnvSource_entry out environ).
Proof.
  intros Hin Hcut. induction environ as [|env environ IH]; intros out.
  - by apply not_elem_of_nil in Hin.
  - simpl. apply elem_of_cons in Hin as [<-|Hin]; [|by apply IH].
    clear IH. generalize (EnvSource_entry_sets out name val Hcut).
    generalize (EnvSource_entry out (name ++ String "=" val)).
    induction environ as [|env environ IH]; intros out' Hheld; [done|].
    simpl. apply IH. by apply EnvSource_entry_keeps.
Qed.

(** C3, as amended.  Value resolution first looks up the lower-cased
    form of the field's declared env-key in the merged namespace, by
    exact match, and uses the value found; only when the env-key is
    undeclared or that key is absent does it look up the config-key
    as written; with neither it finds nothing.  The precedence does
    not depend on the order in which the sources were merged: if the
    lower-cased env-key is in the namespace merged in one order, the
    field resolves through it in every order.  The letter case that is
    ignored is that of the env-key and of the names of environment
    variables, which the environment source lower-cases: a variable
    whose name is the env-key in any letter case is found. *)
Theorem findValue_env_before_config (l : Loader) (data : gmap string value)
    (cfg : fieldConfig) :
  (forall v, envKey cfg <> "" -> data !! ToLower (envKey cfg) = Some v ->
             findValue l data cfg = v)
  /\ (envKey cfg = "" \/ data !! ToLower (envKey cfg) = None ->
      forall v, cfgKey cfg <> "" -> data !! cfgKey cfg = Some v ->
                findValue l data cfg = v)
  /\ (unresolved data cfg -> findValue l data cfg = VNil)
  /\ (forall (srcs srcs' : list Source) (os : OS),
        srcs' ≡ₚ srcs ->
        mergeSources srcs os ∅ = Ok data ->
        envKey cfg <> "" -> is_Some (data !! ToLower (envKey cfg)) ->
        exists merged' v',
          mergeSources srcs' os ∅ = Ok merged'
          /\ merged' !! ToLower (envKey cfg) = Some v'
          /\ findValue l merged' cfg = v')
  /\ (forall (os : OS) (name val : string),
        name ++ String "=" val ∈ Environ os ->
        strings.Cut name "=" = None ->
        envKey cfg <> "" -> ToLower name = ToLower (envKey cfg) ->
        exists out v,
          Source.Load EnvSource os = Ok out
          /\ out !! ToLower (envKey cfg) = Some v /\ v <> VNil
          /\ findValue l out cfg = v).
Proof.
  split; [|split; [|split; [|split]]].
  - intros v. apply findValue_env.
  - intros Henv v. by apply findValue_cfg.
  - apply findValue_unresolved.
  - intros srcs srcs' os Hperm Hm Hne Hk.
    pose proof (mergeSources_all_loaded _ _ _ _ Hm) as Hall.
    rewrite <- Hperm in Hall.
    destruct (mergeSources_total _ _ Hall ∅) as [merged' Hm'].
    assert (is_Some (merged' !! ToLower (envKey cfg))) as [v' Hv'].
    { apply (mergeSources_is_Some _ _ _ _ _ Hm').
      apply (mergeSources_is_Some _ _ _ _ _ Hm) in Hk as [Hk|(s & out & Hin & ?)].
      - by left.
      - right. exists s, out. by rewrite Hperm. }
    exists merged', v'. split; [done|]. split; [done|].
    by apply findValue_env.
  - intros os name val Hin Hcut Hne Hcase.
    destruct (EnvSource_lower_cases (Environ os) name val Hin Hcut ∅) as (v & Hv & Hnil).
    rewrite Hcase in Hv.
    exists (foldl EnvSource_entry ∅ (Environ os)), v.
    repeat split; [done..|]. by apply findValue_env.
Qed.

(** *** Errors *)

Lemma validateRules_app (l : Loader) (fieldName : string) (v : value)
    (before after : list string) :
  validateRules l fieldName v (before ++ after)
  = match validateRules l fieldName v before with
    | Some err => Some err
    | None => validateRules l fieldName v after
    end.
Proof.
  induction before as [|rule before IH]; [done|].
  cbn [app validateRules].
  destruct (validators l !! _) as [validator|]; [|done].
  by destruct (validator v _).
Qed.

Lemma validateRules_unknown (l : Loader) (fieldName : string) (v : value)
    (clause : string) (after : list string) :
  validators l !! ruleName clause = None ->
  validateRules l fieldName v (clause :: after) = validateRules l fieldName v after.
Proof.
  intros Hun. cbn [validateRules]. unfold ruleName in Hun. by rewrite Hun.
Qed.

(** The first rule that fails decides the result, whatever follows. *)
Lemma validateRules_first_failure (l : Loader) (fieldName : string) (v : value)
    (before after : list string) (rule : string) (validator : ValidatorFunc)
    (err : error) :
  validateRules l fieldName v before = None ->
  validators l !! ruleName rule = Some validator ->
  validator v (ruleParam rule) = Some err ->
  validateRules l fieldName v (before ++ rule :: after)
  = Some (ValidationError fieldName v (strings.TrimSpace rule) (Error err)).
Proof.
  intros Hbefore Hrule Herr. rewrite validateRules_app, Hbefore.
  cbn [validateRules]. unfold ruleName in Hrule. unfold ruleParam in Herr.
  by rewrite Hrule, Herr.
Qed.

Lemma applyField_error (l : Loader) (data : gmap string value) (f : structField)
    (e : error) :
  applyField l data f = Err e ->
  let cfg := getFieldConfig l f in
  let v := findValue l data cfg in
  (v <> VNil /\ validate cfg <> ""
   /\ validateField l (Name f) v (validate cfg) = Some e)
  \/ (v <> VNil
      /\ exists e', setValue l f v = Err e'
                    /\ e = Errorf_w ("failed to set field " ++ Name f ++ ": ") e')
  \/ (v = VNil /\ defaultValue cfg <> ""
      /\ exists e', setValue l f (parseValue (defaultValue cfg)) = Err e'
                    /\ e = Errorf_w ("failed to set default for field "
                                     ++ Name f ++ ": ") e').
Proof.
  unfold applyField. destruct (CanSet f); [|done]. cbn [negb]. cbv zeta.
  set (cfg := getFieldConfig l f). set (v := findValue l data cfg).
  assert (forall e0,
    match (if decide (validate cfg = "") then None
           else validateField l (Name f) v (validate cfg)) with
    | Some err => Err err
    | None =>
        match setValue l f v with
        | Ok field' => Ok field'
        | Err err => Err (Errorf_w ("failed to set field " ++ Name f ++ ": ") err)
        end
    end = Err e0 ->
    (validate cfg <> "" /\ validateField l (Name f) v (validate cfg) = Some e0)
    \/ exists e', setValue l f v = Err e'
                  /\ e0 = Errorf_w ("failed to set field " ++ Name f ++ ": ") e')
    as Hres.
  { intros e0. destruct (decide (validate cfg = "")) as [?|Hval].
    - destruct (setValue l f v) as [?|e']; [done|]. intros [= <-]. right. by exists e'.
    - destruct (validateField l (Name f) v (validate cfg)) as [err|].
      + intros [= <-]. by left.
      + destruct (setValue l f v) as [?|e']; [done|]. intros [= <-]. right. by exists e'. }
  destruct v eqn:Hv;
    try (intros He; apply Hres in He as [[? ?]|?]; [left|right; left]; by repeat split).
  destruct (decide (defaultValue cfg = "")) as [?|Hdef]; [done|].
  destruct (setValue l f (parseValue (defaultValue cfg))) as [?|e']; [done|].
  intros [= <-]. right; right. repeat split; [done|]. by exists e'.
Qed.

(** C4.  An error in [Load] ends the call at once with that one error.
    A source that fails, the earlier ones having loaded, makes [Load]
    return its error wrapped, whatever sources follow, and the target
    is not touched.  A field whose step fails, the earlier ones having
    succeeded, makes [Load] return that field's error (the
    [ValidationError] of its first failing rule, or the wrapped
    coercion error of its value or of its default), whatever fields
    follow; the earlier fields keep what was assigned to them, and the
    failing field and the later ones are as they were.  Within a field
    the first rule that fails gives the error, whatever rules follow. *)
Theorem Load_aborts_on_first_error (l : Loader) (os : OS) :
  (forall config pre s post e,
     sources l = (pre ++ s :: post)%list ->
     Forall (fun s' => exists out, Source.Load s' os = Ok out) pre ->
     Source.Load s os = Err e ->
     Load l os config = (config, Some (Errorf_w "failed to load from source: " e)))
  /\ (forall merged pre pre' f post e,
        mergeSources (sources l) os ∅ = Ok merged ->
        Forall2 (fun f f' => applyField l merged f = Ok f') pre pre' ->
        applyField l merged f = Err e ->
        Load l os (pointerToStruct (pre ++ f :: post))
        = (pointerToStruct (pre' ++ f :: post), Some e)
        /\ let cfg := getFieldConfig l f in
           let v := findValue l merged cfg in
           (v <> VNil /\ validate cfg <> ""
            /\ validateField l (Name f) v (validate cfg) = Some e)
           \/ (v <> VNil
               /\ exists e', setValue l f v = Err e'
                    /\ e = Errorf_w ("failed to set field " ++ Name f ++ ": ") e')
           \/ (v = VNil /\ defaultValue cfg <> ""
               /\ exists e', setValue l f (parseValue (defaultValue cfg)) = Err e'
                    /\ e = Errorf_w ("failed to set default for field "
                                     ++ Name f ++ ": ") e'))
  /\ (forall fieldName v before rule after validator err,
        validateRules l fieldName v before = None ->
        validators l !! ruleName rule = Some validator ->
        validator v (ruleParam rule) = Some err ->
        validateRules l fieldName v (before ++ rule :: after)
        = Some (ValidationError fieldName v (strings.TrimSpace rule) (Error err))).
Proof.
  split; [|split].
  - intros config pre s post e Hsrcs Hpre Hs. unfold Load.
    by rewrite Hsrcs, (mergeSources_failed pre post s os e Hpre Hs).
  - intros merged pre pre' f post e Hm Hpre Hf. split.
    + unfold Load. rewrite Hm, applyToStruct_pointerToStruct.
      by rewrite (applyFields_app_ok _ _ _ _ _ Hpre), (applyFields_cons_err _ _ _ _ _ Hf).
    + by apply applyField_error.
  - intros fieldName v before rule after validator err.
    apply validateRules_first_failure.
Qed.

(** C10.  For an argument that is not a pointer, other than nil, to a
    struct, [Load] returns the error "config must be a pointer to
    struct" and the argument as it was; it does so once every source
    has loaded, and when a source fails it returns that source's
    wrapped error instead. *)
Theorem Load_rejects_other_targets (l : Loader) (os : OS) (config : object) :
  (forall fields, config <> pointerToStruct fields) ->
  (forall merged,
     mergeSources (sources l) os ∅ = Ok merged ->
     Load l os config
     = (config, Some (errorString "config must be a pointer to struct")))
  /\ (forall pre s post e,
        sources l = (pre ++ s :: post)%list ->
        Forall (fun s' => exists out, Source.Load s' os = Ok out) pre ->
        Source.Load s os = Err e ->
        Load l os config
        = (config, Some (Errorf_w "failed to load from source: " e))).
Proof.
  intros Hnot. split.
  - intros merged Hm. unfold Load. rewrite Hm. unfold applyToStruct.
    destruct config as [[]| |[[[]| |]|]]; try done.
    by destruct (Hnot fields).
  - intros pre s post e Hsrcs Hpre Hs. unfold Load.
    by rewrite Hsrcs, (mergeSources_failed pre post s os e Hpre Hs).
Qed.
End binding.

(** ** Coercion and validation *)

Lemma Split_cons (s : string) (sep : ascii) :
  exists piece pieces, strings.Split s sep = piece :: pieces.
Proof.
  induction s as [|c s (piece & pieces & IH)]; simpl; [by eexists _, _|].
  destruct (Ascii.eqb c sep); [by eexists _, _|]. rewrite IH. by eexists _, _.
Qed.

(** Splitting at a separator splits the text on either side of it. *)
Lemma Split_app (a b : string) (sep : ascii) :
  strings.Split (a ++ String sep b) sep
  = (strings.Split a sep ++ strings.Split b sep)%list.
Proof.
  induction a as [|c a IH]; simpl.
  - by rewrite Ascii.eqb_refl.
  - destruct (Ascii.eqb c sep); rewrite IH; [done|].
    by destruct (Split_cons a sep) as (piece & pieces & ->).
Qed.

(** ** Decimal printing and parsing *)

Lemma digit_digitChar (d : Z) :
  0 <= d < 10 -> strconv.digit (strconv.digitChar d) = Some d.
Proof.
  intros Hd.
  assert (d = 0 \/ d = 1 \/ d = 2 \/ d = 3 \/ d = 4 \/ d = 5 \/ d = 6 \/ d = 7
          \/ d = 8 \/ d = 9) as Hcases by lia.
  repeat (destruct Hcases as [->|Hcases]; [reflexivity|]). by subst.
Qed.

Lemma digit_range (c : ascii) (d : Z) : strconv.digit c = Some d -> 0 <= d < 10.
Proof.
  unfold strconv.digit.
  destruct (48 <=? strings.byte c) eqn:Hlo; [|done].
  destruct (strings.byte c <=? 57) eqn:Hhi; [|done].
  intros [= <-]. lia.
Qed.

Lemma spelled_le (s : string) : forall n, 0 <= n -> n <= spelled s n.
Proof.
  induction s as [|c s IH]; intros n Hn; simpl; [lia|].
  destruct (strconv.digit c) as [d|] eqn:Hd; simpl.
  - apply digit_range in Hd. etrans; [|apply IH]; lia.
  - etrans; [|apply IH]; lia.
Qed.

(** On digits that spell a number within 64 bits the loop of [ParseUint]
    returns that number. *)
Lemma parseUintLoop_spelled (s0 s : string) : forall n,
  allDigits s = true -> 0 <= n -> spelled s n <= strconv.maxUint64 ->
  strconv.parseUintLoop s0 s n = Ok (spelled s n).
Proof.
  induction s as [|c s IH]; intros n Hall Hn Hmax; [done|].
  simpl in *. apply andb_prop in Hall as [Hc Hall]. unfold isDigit in Hc.
  destruct (strconv.digit c) as [d|] eqn:Hd; [|done]. simpl in *.
  pose proof (digit_range c d Hd) as Hrange.
  pose proof (spelled_le s (n * 10 + d) ltac:(lia)) as Hle.
  change strconv.maxUint64 with 18446744073709551615 in *.
  change (18446744073709551615 / 10 + 1) with 1844674407370955162.
  destruct (1844674407370955162 <=? n) eqn:Hcut; [lia|].
  destruct (18446744073709551615 <? n * 10 + d) eqn:Hover; [lia|].
  apply IH; [done|lia|done].
Qed.

Lemma utoa_spelled (fuel : nat) : forall n acc,
  0 <= n < 2 ^ Z.of_nat fuel -> spelled (strconv.utoa fuel n acc) 0 = spelled acc n.
Proof.
  induction fuel as [|fuel IH]; intros n acc Hn.
  - simpl in *. by replace n with 0 by lia.
  - cbn [strconv.utoa]. cbv zeta.
    pose proof (Z.mod_pos_bound n 10 ltac:(lia)) as Hr.
    destruct (n <? 10) eqn:Hsmall.
    + cbn [spelled]. rewrite (digit_digitChar _ Hr). simpl.
      f_equal. rewrite Z.mod_small; lia.
    + rewrite IH.
      * cbn [spelled]. rewrite (digit_digitChar _ Hr). simpl. f_equal.
        pose proof (Z.div_mod n 10 ltac:(lia)). lia.
      * rewrite Nat2Z.inj_succ, Z.pow_succ_r in Hn by lia.
        split; [apply Z.div_pos; lia|].
        apply Z.div_lt_upper_bound; lia.
Qed.

Lemma utoa_allDigits (fuel : nat) : forall n acc,
  0 <= n -> allDigits acc = true -> allDigits (strconv.utoa fuel n acc) = true.
Proof.
  induction fuel as [|fuel IH]; intros n acc Hn Hacc; [done|].
  cbn [strconv.utoa]. cbv zeta.
  pose proof (Z.mod_pos_bound n 10 ltac:(lia)) as Hr.
  assert (allDigits (String (strconv.digitChar (n mod 10)) acc) = true) as Hacc'.
  { simpl. unfold isDigit. by rewrite (digit_digitChar _ Hr). }
  destruct (n <? 10); [done|]. apply IH; [|done]. apply Z.div_pos; lia.
Qed.

Lemma utoa_cons (fuel : nat) : forall n acc,
  exists c rest, strconv.utoa (S fuel) n acc = String c rest.
Proof.
  induction fuel as [|fuel IH]; intros n acc.
  - cbn [strconv.utoa]. cbv zeta. destruct (n <? 10); by eexists _, _.
  - cbn [strconv.utoa]. cbv zeta. destruct (n <? 10); [by eexists _, _|]. apply IH.
Qed.

Lemma fuel_enough (n : Z) : 0 <= n -> n < 2 ^ Z.of_nat (Z.to_nat (Z.log2 n) + 1).
Proof.
  intros Hn. rewrite Nat2Z.inj_add, Z2Nat.id by apply Z.log2_nonneg.
  destruct (decide (n = 0)) as [->|?]; [done|].
  apply Z.log2_spec. lia.
Qed.

Lemma ParseUint_utoa (n : Z) :
  0 <= n <= strconv.maxUint64 ->
  let s := strconv.utoa (Z.to_nat (Z.log2 n) + 1) n EmptyString in
  strconv.ParseUint s = Ok n
  /\ allDigits s = true /\ exists c rest, s = String c rest.
Proof.
  intros Hn s.
  assert (allDigits s = true) as Hall by (apply utoa_allDigits; [lia|done]).
  assert (spelled s 0 = n) as Hsp.
  { apply utoa_spelled. split; [lia|apply fuel_enough; lia]. }
  assert (exists c rest, s = String c rest) as (c & rest & Hs).
  { subst s. rewrite Nat.add_1_r. apply utoa_cons. }
  split; [|split; [done|by exists c, rest]].
  unfold strconv.ParseUint. rewrite Hs, <- Hs.
  rewrite parseUintLoop_spelled; [by rewrite Hsp|done|done|lia].
Qed.

Lemma isDigit_not_sign (c : ascii) :
  isDigit c = true -> Ascii.eqb c "+" = false /\ Ascii.eqb c "-" = false.
Proof.
  unfold isDigit, strconv.digit.
  destruct (48 <=? strings.byte c) eqn:Hlo; [|done]. intros _.
  apply Z.leb_le in Hlo. split; apply Ascii.eqb_neq; intros ->; by vm_compute in Hlo.
Qed.

(** Printing an integer of 64 bits and parsing it gives it back. *)
Lemma ParseInt_Itoa (n : Z) :
  - 2 ^ 63 <= n < 2 ^ 63 -> strconv.ParseInt (strconv.Itoa n) = Ok n.
Proof.
  intros Hn. unfold strconv.Itoa. destruct (n <? 0) eqn:Hneg.
  - destruct (ParseUint_utoa (- n)) as (Hparse & _ & _).
    { change strconv.maxUint64 with 18446744073709551615. lia. }
    cbn [strconv.ParseInt]. simpl Ascii.eqb. cbv iota beta. rewrite Hparse.
    destruct (2 ^ 63 <? - n) eqn:Hcut; [lia|]. simpl. f_equal. lia.
  - destruct (ParseUint_utoa n) as (Hparse & Hall & c & rest & Hs).
    { change strconv.maxUint64 with 18446744073709551615. lia. }
    rewrite Hs in *. simpl in Hall. apply andb_prop in Hall as [Hc _].
    destruct (isDigit_not_sign c Hc) as [Hplus Hminus].
    cbn [strconv.ParseInt]. rewrite Hplus, Hminus. cbv iota beta. rewrite Hparse.
    destruct (2 ^ 63 <=? n) eqn:Hcut; [lia|]. done.
Qed.

Lemma Atoi_Itoa (n : Z) :
  - 2 ^ 63 <= n < 2 ^ 63 -> strconv.Atoi (strconv.Itoa n) = Ok n.
Proof. intros Hn. unfold strconv.Atoi. by rewrite ParseInt_Itoa. Qed.

Lemma allChars_impl (p q : ascii -> bool) (s : string) :
  (forall c, p c = true -> q c = true) -> allChars p s = true -> allChars q s = true.
Proof.
  intros Hpq. induction s as [|c s IH]; [done|]. simpl.
  intros [Hc Hs]%andb_prop. by rewrite (Hpq c Hc), IH.
Qed.

Lemma isDigit_byte (c : ascii) : isDigit c = true -> 48 <= strings.byte c <= 57.
Proof.
  unfold isDigit, strconv.digit.
  destruct (48 <=? strings.byte c) eqn:Hlo; [|done].
  destruct (strings.byte c <=? 57) eqn:Hhi; [|done]. lia.
Qed.

Lemma isDigit_plain (c : ascii) : isDigit c = true -> plain c = true.
Proof.
  intros Hc%isDigit_byte. unfold plain, strings.asciiSpace. cbv zeta.
  destruct (strings.byte c <=? 13) eqn:?; [lia|].
  destruct (strings.byte c =? 32) eqn:?; [lia|].
  destruct (strings.byte c <? 128) eqn:?; [|lia].
  by rewrite andb_false_r.
Qed.

Lemma Itoa_chars (n : Z) :
  exists c rest,
    strconv.Itoa n = String c rest
    /\ allChars (fun c => isDigit c || Ascii.eqb c "-") (strconv.Itoa n) = true.
Proof.
  unfold strconv.Itoa.
  assert (forall m, 0 <= m ->
            allChars (fun c => isDigit c || Ascii.eqb c "-")
              (strconv.utoa (Z.to_nat (Z.log2 m) + 1) m EmptyString) = true) as Hds.
  { intros m Hm. apply (allChars_impl isDigit); [by intros c ->|].
    by apply utoa_allDigits. }
  destruct (n <? 0) eqn:Hneg.
  - eexists _, _. split; [done|]. simpl. apply Hds. lia.
  - rewrite Nat.add_1_r.
    destruct (utoa_cons (Z.to_nat (Z.log2 n)) n EmptyString) as (c & rest & Hs).
    exists c, rest. split; [done|]. rewrite <- Nat.add_1_r. apply Hds. lia.
Qed.

(** A text without the separator is one piece. *)
Lemma Split_one (s : string) (sep : ascii) :
  allChars (fun c => negb (Ascii.eqb c sep)) s = true -> strings.Split s sep = [s].
Proof.
  induction s as [|c s IH]; [done|]. simpl.
  intros [Hc Hs]%andb_prop. apply negb_true_iff in Hc. by rewrite Hc, IH.
Qed.

Lemma rev_app_rev_app (s1 : string) : forall s2 s3,
  String.rev_app (String.rev_app s1 s2) s3 = String.rev_app s2 (s1 ++ s3).
Proof.
  induction s1 as [|a s1 IH]; intros s2 s3; [done|].
  simpl. by rewrite IH.
Qed.

Lemma rev_rev (s : string) : String.rev (String.rev s) = s.
Proof. unfold String.rev. rewrite rev_app_rev_app. simpl. apply append_nil_r. Qed.

Lemma allChars_rev_app (p : ascii -> bool) (s1 : string) : forall s2,
  allChars p s1 = true -> allChars p s2 = true ->
  allChars p (String.rev_app s1 s2) = true.
Proof.
  induction s1 as [|a s1 IH]; intros s2 H1 H2; [done|].
  simpl in *. apply andb_prop in H1 as [Ha H1]. apply IH; [done|]. simpl. by rewrite Ha.
Qed.

Lemma rev_app_cons (s1 : string) : forall a s2,
  exists c rest, String.rev_app s1 (String a s2) = String c rest.
Proof.
  induction s1 as [|b s1 IH]; intros a s2; [by eexists _, _|]. simpl. apply IH.
Qed.

Lemma trimLeftSpace_plain (c : ascii) (s : string) :
  plain c = true -> strings.trimLeftSpace (String c s) = String c s.
Proof.
  unfold plain. intros [Hsp Hlt]%andb_prop. apply negb_true_iff in Hsp.
  apply Z.ltb_lt in Hlt. cbn [strings.trimLeftSpace]. rewrite Hsp.
  destruct s as [|c1 s]; [done|].
  assert (strings.space2 c c1 = false) as ->.
  { unfold strings.space2. destruct (strings.byte c =? 194) eqn:?; [lia|done]. }
  destruct s as [|c2 s]; [done|].
  assert (strings.space3 c c1 c2 = false) as ->; [|done].
  unfold strings.space3.
  destruct (strings.byte c =? 225) eqn:?; [lia|].
  destruct (strings.byte c =? 226) eqn:?; [lia|].
  destruct (strings.byte c =? 227) eqn:?; [lia|]. done.
Qed.

Lemma trimLeftSpaceRev_plain (c : ascii) (s : string) :
  plain c = true -> strings.trimLeftSpaceRev (String c s) = String c s.
Proof.
  unfold plain. intros [Hsp Hlt]%andb_prop. apply negb_true_iff in Hsp.
  apply Z.ltb_lt in Hlt. cbn [strings.trimLeftSpaceRev]. rewrite Hsp.
  destruct s as [|c1 s]; [done|].
  assert (strings.space2 c1 c = false) as ->.
  { unfold strings.space2.
    destruct (strings.byte c =? 133) eqn:?; [lia|].
    destruct (strings.byte c =? 160) eqn:?; [lia|]. by rewrite andb_false_r. }
  destruct s as [|c2 s]; [done|].
  assert (strings.space3 c2 c1 c = false) as ->; [|done].
  unfold strings.space3.
  destruct (strings.byte c =? 128) eqn:?; [lia|].
  destruct (strings.byte c <=? 138) eqn:?;
    destruct (128 <=? strings.byte c) eqn:?; try lia;
    destruct (strings.byte c =? 168) eqn:?; try lia;
    destruct (strings.byte c =? 169) eqn:?; try lia;
    destruct (strings.byte c =? 175) eqn:?; try lia;
    destruct (strings.byte c =? 159) eqn:?; try lia;
    by rewrite ?andb_false_r.
Qed.

(** [TrimSpace] leaves a text of plain bytes as it is. *)
Lemma TrimSpace_plain (s : string) : allChars plain s = true -> strings.TrimSpace s = s.
Proof.
  intros Hs. unfold strings.TrimSpace. destruct s as [|c s]; [done|].
  pose proof Hs as [Hc _]%andb_prop.
  rewrite (trimLeftSpace_plain c s Hc).
  unfold String.rev at 2. cbn [String.rev_app].
  destruct (rev_app_cons s c EmptyString) as (c' & rest & Hrev). rewrite Hrev.
  assert (allChars plain (String c' rest) = true) as [Hc' _]%andb_prop.
  { rewrite <- Hrev. apply allChars_rev_app; [by apply andb_prop in Hs as [_ ?]|].
    simpl. by rewrite Hc. }
  rewrite (trimLeftSpaceRev_plain c' rest Hc'), <- Hrev.
  change (String.rev_app s (String c EmptyString)) with (String.rev (String c s)).
  apply rev_rev.
Qed.

Lemma Itoa_plain (n : Z) : allChars plain (strconv.Itoa n) = true.
Proof.
  destruct (Itoa_chars n) as (_ & _ & _ & Hall).
  revert Hall. apply allChars_impl.
  intros c [Hd|Hm]%orb_prop; [by apply isDigit_plain|].
  apply Ascii.eqb_eq in Hm as ->. done.
Qed.

Lemma Itoa_no_comma (n : Z) :
  allChars (fun c => negb (Ascii.eqb c ",")) (strconv.Itoa n) = true.
Proof.
  destruct (Itoa_chars n) as (_ & _ & _ & Hall).
  revert Hall. apply allChars_impl.
  intros c [Hd|Hm]%orb_prop.
  - apply isDigit_byte in Hd. apply negb_true_iff, Ascii.eqb_neq. intros ->.
    by vm_compute in Hd; destruct Hd.
  - apply Ascii.eqb_eq in Hm as ->. done.
Qed.

Section validation.
Context `{Platform}.

(** C7.  [parseValue] returns the result of the first of boolean
    parse, signed 64-bit integer parse and float parse that succeeds,
    in that order, and the string itself when none does.  So "true" is
    the boolean true, "42" the integer 42, "3.14" the float that the
    float parser reads from it, "hello" the string; and "1", which
    both the first and the second parser accept, is a boolean. *)
Theorem parseValue_first_success :
  (forall s,
     (forall b, strconv.ParseBool s = Ok b -> parseValue s = VBool b)
     /\ (forall i, isErr (strconv.ParseBool s) -> strconv.ParseInt s = Ok i ->
                   parseValue s = VInt i)
     /\ (forall f, isErr (strconv.ParseBool s) -> isErr (strconv.ParseInt s) ->
                   ParseFloat s = Ok f -> parseValue s = VFloat f)
     /\ (isErr (strconv.ParseBool s) -> isErr (strconv.ParseInt s) ->
         isErr (ParseFloat s) -> parseValue s = VString s))
  /\ parseValue "true" = VBool true
  /\ parseValue "42" = VInt 42
  /\ (forall f, ParseFloat "3.14" = Ok f -> parseValue "3.14" = VFloat f)
  /\ (isErr (ParseFloat "hello") -> parseValue "hello" = VString "hello")
  /\ parseValue "1" = VBool true
  /\ parseValue "-9223372036854775808" = VInt (- 2 ^ 63)
  /\ (forall f, ParseFloat "9223372036854775808" = Ok f ->
                parseValue "9223372036854775808" = VFloat f).
Proof.
  assert (forall s,
     (forall b, strconv.ParseBool s = Ok b -> parseValue s = VBool b)
     /\ (forall i, isErr (strconv.ParseBool s) -> strconv.ParseInt s = Ok i ->
                   parseValue s = VInt i)
     /\ (forall f, isErr (strconv.ParseBool s) -> isErr (strconv.ParseInt s) ->
                   ParseFloat s = Ok f -> parseValue s = VFloat f)
     /\ (isErr (strconv.ParseBool s) -> isErr (strconv.ParseInt s) ->
         isErr (ParseFloat s) -> parseValue s = VString s)) as Hgen.
  { intros s. unfold parseValue. repeat split.
    - by intros b ->.
    - by intros i [? ->] ->.
    - by intros f [? ->] [? ->] ->.
    - by intros [? ->] [? ->] [? ->]. }
  split; [exact Hgen|]. repeat split.
  - destruct (Hgen "3.14") as (_ & _ & Hf & _).
    intros f. apply Hf; by eexists.
  - destruct (Hgen "hello") as (_ & _ & _ & Hs).
    apply Hs; by eexists.
  - destruct (Hgen "9223372036854775808") as (_ & _ & Hf & _).
    intros f. apply Hf; by eexists.
Qed.

(** C8.  A clause of a validate expression whose rule name has no
    entry in the loader's validators is skipped: the rules before and
    after it are evaluated as if it were not there, and on its own it
    yields no error. *)
Theorem unknown_rule_skipped (l : Loader) (fieldName : string) (v : value)
    (clause : string) :
  validators l !! ruleName clause = None ->
  (forall before after,
     validateRules l fieldName v (before ++ clause :: after)
     = validateRules l fieldName v (before ++ after))
  /\ (strings.Split clause "," = [clause] ->
      validateField l fieldName v clause = None
      /\ (forall post,
            validateField l fieldName v (clause ++ "," ++ post)
            = validateField l fieldName v post)
      /\ (forall pre,
            validateField l fieldName v (pre ++ "," ++ clause)
            = validateField l fieldName v pre)
      /\ (forall pre post,
            validateField l fieldName v (pre ++ "," ++ clause ++ "," ++ post)
            = validateField l fieldName v (pre ++ "," ++ post))).
Proof.
  intros Hun.
  assert (forall before after,
            validateRules l fieldName v (before ++ clause :: after)
            = validateRules l fieldName v (before ++ after)) as Hlist.
  { intros before after.
    by rewrite !validateRules_app, validateRules_unknown. }
  split; [exact Hlist|]. intros Hone. unfold validateField.
  repeat split.
  - rewrite Hone. by apply validateRules_unknown.
  - intros post. change (clause ++ "," ++ post) with (clause ++ String "," post).
    rewrite Split_app, Hone. apply (Hlist []).
  - intros pre. change (pre ++ "," ++ clause) with (pre ++ String "," clause).
    rewrite Split_app, Hone.
    rewrite (Hlist (strings.Split pre ",") []). by rewrite app_nil_r.
  - intros pre post.
    change (pre ++ "," ++ clause ++ "," ++ post)
      with (pre ++ String "," (clause ++ String "," post)).
    change (pre ++ "," ++ post) with (pre ++ String "," post).
    rewrite !Split_app, Hone. cbn [app]. by rewrite Hlist.
Qed.

(** On integers the bounds are inclusive on both ends. *)
Lemma range_validator_integers (i min max : Z) :
  - 2 ^ 63 <= i < 2 ^ 63 -> - 2 ^ 63 <= min < 2 ^ 63 -> - 2 ^ 63 <= max < 2 ^ 63 ->
  (range_validator (VInt i) (strconv.Itoa min ++ "," ++ strconv.Itoa max) = None
   <-> min <= i <= max).
Proof.
  intros Hi Hmin Hmax. unfold range_validator.
  change (strconv.Itoa min ++ "," ++ strconv.Itoa max)
    with (strconv.Itoa min ++ String "," (strconv.Itoa max)).
  rewrite Split_app, !Split_one by apply Itoa_no_comma. cbn [app].
  rewrite !TrimSpace_plain by apply Itoa_plain.
  rewrite !Atoi_Itoa by done. cbn [Sprint]. rewrite Atoi_Itoa by done.
  destruct (i <? min) eqn:Hlo; [split; [done|lia]|].
  destruct (max <? i) eqn:Hhi; [split; [done|lia]|].
  split; [lia|done].
Qed.

(** The range validator called on its own, with the whole parameter
    (which [validateField] never passes, see below): it accepts a value
    exactly when its parameter splits at its only comma into two texts that, trimmed,
    are integers [min] and [max], and the value's [%v] text is an
    integer [val] with [min <= val <= max]; so it returns an error
    when the value's text is not an integer and when the parameter is
    not two integers.  For an integer value and integer bounds of 64
    bits, written in decimal, it accepts exactly the values from [min]
    to [max], both included.  With the parameter "1000,9999" it rejects
    500 and 10000 and accepts 1000 and 9999. *)
Theorem range_validator_inclusive :
  (forall v param,
     (range_validator v param = None <->
      exists part0 part1 min max val,
        strings.Split param "," = [part0; part1]
        /\ strconv.Atoi (strings.TrimSpace part0) = Ok min
        /\ strconv.Atoi (strings.TrimSpace part1) = Ok max
        /\ strconv.Atoi (Sprint v) = Ok val
        /\ min <= val <= max)
     /\ (isErr (strconv.Atoi (Sprint v)) -> is_Some (range_validator v param))
     /\ ((forall part0 part1 min max,
            ~ (strings.Split param "," = [part0; part1]
               /\ strconv.Atoi (strings.TrimSpace part0) = Ok min
               /\ strconv.Atoi (strings.TrimSpace part1) = Ok max)) ->
         is_Some (range_validator v param)))
  /\ (forall i min max,
        - 2 ^ 63 <= i < 2 ^ 63 -> - 2 ^ 63 <= min < 2 ^ 63 -> - 2 ^ 63 <= max < 2 ^ 63 ->
        (range_validator (VInt i) (strconv.Itoa min ++ "," ++ strconv.Itoa max) = None
         <-> min <= i <= max))
  /\ is_Some (range_validator (VInt 500) "1000,9999")
  /\ is_Some (range_validator (VInt 10000) "1000,9999")
  /\ range_validator (VInt 1000) "1000,9999" = None
  /\ range_validator (VInt 9999) "1000,9999" = None.
Proof.
  assert (forall v param,
     range_validator v param = None <->
      exists part0 part1 min max val,
        strings.Split param "," = [part0; part1]
        /\ strconv.Atoi (strings.TrimSpace part0) = Ok min
        /\ strconv.Atoi (strings.TrimSpace part1) = Ok max
        /\ strconv.Atoi (Sprint v) = Ok val
        /\ min <= val <= max) as Hiff.
  { intros v param. unfold range_validator. split.
    - destruct (strings.Split param ",") as [|part0 [|part1 [|? ?]]]; try done.
      destruct (strconv.Atoi (strings.TrimSpace part0)) as [min|] eqn:Hmin; [|done].
      destruct (strconv.Atoi (strings.TrimSpace part1)) as [max|] eqn:Hmax; [|done].
      destruct (strconv.Atoi (Sprint v)) as [val|] eqn:Hval; [|done].
      destruct (val <? min) eqn:Hlo; [done|].
      destruct (max <? val) eqn:Hhi; [done|]. intros _.
      apply Z.ltb_ge in Hlo, Hhi.
      exists part0, part1, min, max, val. by repeat split.
    - intros (part0 & part1 & min & max & val & -> & -> & -> & -> & Hlo & Hhi).
      apply Z.ltb_ge in Hlo, Hhi. by rewrite Hlo, Hhi. }
  split; [|split; [exact range_validator_integers|repeat split; by eexists]].
  intros v param. split; [apply Hiff|]. split.
  - intros [e He].
    destruct (range_validator v param) as [err|] eqn:Hr; [by eexists|].
    apply Hiff in Hr as (? & ? & ? & ? & ? & _ & _ & _ & Hval & _).
    by rewrite He in Hval.
  - intros Hno.
    destruct (range_validator v param) as [err|] eqn:Hr; [by eexists|].
    apply Hiff in Hr as (part0 & part1 & min & max & ? & ? & ? & ? & _).
    by destruct (Hno part0 part1 min max).
Qed.

(** Reached through a validate tag the range rule never sees such a
    parameter: [validateField] splits the expression at every comma
    first, so "range:1000,9999" is the rule "range:1000", which the
    validator rejects for every value, and the unknown rule "9999". *)
Lemma validateField_range_expression (v : value) :
  validateField New "Port" v "range:1000,9999"
  = Some (ValidationError "Port" v "range:1000"
            "range validator requires min,max parameters").
Proof. reflexivity. Qed.
End validation.

(** * Further properties of the binder, the sources and the validators *)

Section binder_frame.
Context `{Platform}.

Lemma setValue_Ok (l : Loader) (f f' : structField) (v : value) :
  setValue l f v = Ok f' -> f' = f \/ exists x, f' = setVal f x.
Proof.
  unfold setValue. destruct (FieldKind f);
    repeat match goal with
           | |- context [match ?r with Ok _ => _ | Err _ => _ end] => destruct r
           end;
    intros [= <-]; eauto.
Qed.

(** Assigning again what was assigned gives the same field. *)
Lemma setValue_again (l : Loader) (f f' : structField) (v : value) :
  setValue l f v = Ok f' -> setValue l f' v = Ok f'.
Proof.
  unfold setValue. destruct (FieldKind f) eqn:Hk;
    repeat match goal with
           | |- context [match ?r with Ok _ => _ | Err _ => _ end] =>
               let E := fresh "E" in destruct r eqn:E
           end;
    intros [= <-]; cbn [FieldKind setVal]; rewrite ?Hk, ?E; done.
Qed.

Lemma applyField_Ok (l : Loader) (data : gmap string value) (f f' : structField) :
  applyField l data f = Ok f' -> f' = f \/ exists x, f' = setVal f x.
Proof.
  unfold applyField. destruct (CanSet f); cbn [negb]; [|intros [= <-]; by left].
  cbv zeta.
  destruct (findValue l data (getFieldConfig l f));
    repeat match goal with
           | |- context [decide ?P] => destruct (decide P)
           | |- context [validateField ?a ?b ?c ?d] => destruct (validateField a b c d)
           | |- context [setValue ?a ?b ?c] =>
               let E := fresh "E" in destruct (setValue a b c) eqn:E
           end;
    intros [= <-]; eauto using setValue_Ok.
Qed.

(** The loop body run on its own result changes nothing more. *)
Lemma applyField_again (l : Loader) (data : gmap string value) (f f' : structField) :
  applyField l data f = Ok f' -> applyField l data f' = Ok f'.
Proof.
  intros Hf. destruct (applyField_Ok _ _ _ _ Hf) as [->|[x ->]]; [done|].
  revert Hf. unfold applyField. cbn [CanSet Name setVal].
  change (getFieldConfig l (setVal f x)) with (getFieldConfig l f).
  destruct (CanSet f); cbn [negb]; [|done]. cbv zeta.
  destruct (findValue l data (getFieldConfig l f)) eqn:Hv;
    repeat match goal with
           | |- context [decide ?P] => destruct (decide P)
           | |- context [validateField ?a ?b ?c ?d] => destruct (validateField a b c d)
           end;
    try done;
    match goal with
    | |- context [setValue l f ?v] =>
        let E := fresh "E" in
        destruct (setValue l f v) as [g|] eqn:E; [|done];
        intros [= ->]; by rewrite (setValue_again _ _ _ _ E)
    end.
Qed.

Lemma applyFields_again (l : Loader) (data : gmap string value)
    (fields : list structField) :
  applyFields l data (applyFields l data fields).1 = applyFields l data fields.
Proof.
  induction fields as [|f fields IH]; [done|].
  destruct (applyField l data f) as [f'|e] eqn:Hf.
  - rewrite (applyFields_cons_ok _ _ _ _ _ Hf). cbn [fst].
    rewrite (applyFields_cons_ok _ _ _ _ _ (applyField_again _ _ _ _ Hf)).
    by rewrite IH.
  - rewrite (applyFields_cons_err _ _ _ _ _ Hf). cbn [fst].
    by rewrite (applyFields_cons_err _ _ _ _ _ Hf).
Qed.

End binder_frame.

Section binder_values.
Context `{Platform}.

Lemma setValue_unsupported (l : Loader) (f : structField) (v : value) :
  supportedKind (FieldKind f) = false -> setValue l f v = Ok f.
Proof. unfold setValue. by destruct (FieldKind f). Qed.

Lemma applyField_skips (l : Loader) (data : gmap string value) (f f' : structField) :
  CanSet f = false \/ supportedKind (FieldKind f) = false ->
  applyField l data f = Ok f' -> f' = f.
Proof.
  unfold applyField. destruct (CanSet f); cbn [negb]; [|by intros _ [= <-]].
  intros [?|Hk]; [done|]. cbv zeta.
  destruct (findValue l data (getFieldConfig l f));
    repeat match goal with
           | |- context [decide ?P] => destruct (decide P)
           | |- context [validateField ?a ?b ?c ?d] => destruct (validateField a b c d)
           end;
    rewrite ?(setValue_unsupported _ _ _ Hk); by intros [= <-].
Qed.

Lemma applyField_unsupported (l : Loader) (data : gmap string value)
    (f : structField) :
  CanSet f = false \/ supportedKind (FieldKind f) = false ->
  (CanSet f = false -> applyField l data f = Ok f)
  /\ (applyField l data f = Ok f
      \/ exists err,
           applyField l data f = Err err
           /\ findValue l data (getFieldConfig l f) <> VNil
           /\ validate (getFieldConfig l f) <> ""
           /\ validateField l (Name f) (findValue l data (getFieldConfig l f))
                (validate (getFieldConfig l f)) = Some err).
Proof.
  intros Hskip. unfold applyField. split; [by intros ->|].
  destruct (CanSet f); cbn [negb]; [|by left].
  destruct Hskip as [?|Hk]; [done|]. cbv zeta.
  destruct (findValue l data (getFieldConfig l f)) eqn:Hv;
    repeat match goal with
           | |- context [decide ?P] => destruct (decide P)
           | |- context [validateField ?a ?b ?c ?d] =>
               let E := fresh "E" in destruct (validateField a b c d) eqn:E
           end;
    rewrite ?(setValue_unsupported _ _ _ Hk);
    first [ by left | right; eexists; by repeat split ].
Qed.

(** X3.  A field that cannot be set (an unexported one), or whose kind
    [setValue] has no case for (a slice, a map, a struct, an unsigned
    integer, ...), holds after [Load] the value it held before, whatever
    the sources carry under its keys and whatever its default.  The kind
    itself is no error: [setValue] returns none for it.  An unexported
    field never fails to bind, and a settable field of such a kind fails
    only when a value was found for it and its [validate] rule rejects
    that value; the error is then that of the rule. *)
Theorem Load_skips_field (l : Loader) (os : OS) (fields : list structField)
    (i : nat) (field : structField) :
  fields !! i = Some field ->
  CanSet field = false \/ supportedKind (FieldKind field) = false ->
  (exists fields',
     (Load l os (pointerToStruct fields)).1 = pointerToStruct fields'
     /\ fields' !! i = Some field)
  /\ (supportedKind (FieldKind field) = false ->
      forall v, setValue l field v = Ok field)
  /\ (forall data,
        (CanSet field = false -> applyField l data field = Ok field)
        /\ (applyField l data field = Ok field
            \/ exists err,
                 applyField l data field = Err err
                 /\ findValue l data (getFieldConfig l field) <> VNil
                 /\ validate (getFieldConfig l field) <> ""
                 /\ validateField l (Name field)
                      (findValue l data (getFieldConfig l field))
                      (validate (getFieldConfig l field)) = Some err)).
Proof.
  intros Hi Hskip. split; [|split].
  - unfold Load.
    destruct (mergeSources (sources l) os ∅) as [merged|e]; [|by exists fields].
    rewrite applyToStruct_pointerToStruct. eexists. split; [done|].
    destruct (applyFields_lookup l merged fields i field Hi) as (f' & -> & [->|Hf]);
      [done|].
    by rewrite (applyField_skips _ _ _ _ Hskip Hf).
  - intros Hk v. by apply setValue_unsupported.
  - intros data. by apply applyField_unsupported.
Qed.

Lemma wrapInt_bounds (k : reflect.Kind) (i : Z) :
  - 2 ^ (intBits k - 1) <= reflect.wrapInt (intBits k) i < 2 ^ (intBits k - 1)
  /\ (reflect.wrapInt (intBits k) i = i
      <-> - 2 ^ (intBits k - 1) <= i < 2 ^ (intBits k - 1)).
Proof.
  unfold reflect.wrapInt.
  assert (Hb : 0 < 2 ^ (intBits k - 1)
               /\ 2 ^ intBits k = 2 * 2 ^ (intBits k - 1)).
  { destruct k; cbn [intBits]; split; reflexivity. }
  destruct Hb as [Hpos Hdouble]. rewrite Hdouble.
  set (h := 2 ^ (intBits k - 1)) in *.
  pose proof (Z.mod_pos_bound (i + h) (2 * h) ltac:(lia)) as Hm.
  split; [lia|]. split.
  - intros Heq. lia.
  - intros Hi. rewrite Z.mod_small by lia. lia.
Qed.

Lemma setValue_int_field_exact (l : Loader) (f : structField) (i : Z) :
  isIntKind (FieldKind f) = true -> - 2 ^ 63 <= i < 2 ^ 63 ->
  setValue l f (VInt i)
  = Ok (setVal f (VInt (reflect.wrapInt (intBits (FieldKind f)) i)))
  /\ (intBits (FieldKind f) = 64 -> reflect.wrapInt (intBits (FieldKind f)) i = i).
Proof.
  intros Hk Hi. split.
  - unfold setValue. cbn [Sprint]. rewrite (ParseInt_Itoa i Hi).
    by destruct (FieldKind f).
  - intros Hb. apply wrapInt_bounds. rewrite Hb. done.
Qed.

(** X4.  An integer field takes whatever prints as a decimal integer of
    64 bits, and stores it reduced to the width of its kind: the stored
    value lies in the range of the kind, and is the given one exactly
    when that lies in the range.  One outside is stored changed, with no
    error. *)
Theorem setValue_int_wraps (l : Loader) (f : structField) (v : value) (i : Z) :
  isIntKind (FieldKind f) = true ->
  - 2 ^ 63 <= i < 2 ^ 63 ->
  Sprint v = strconv.Itoa i ->
  let bits := intBits (FieldKind f) in
  setValue l f v = Ok (setVal f (VInt (reflect.wrapInt bits i)))
  /\ - 2 ^ (bits - 1) <= reflect.wrapInt bits i < 2 ^ (bits - 1)
  /\ (reflect.wrapInt bits i = i <-> - 2 ^ (bits - 1) <= i < 2 ^ (bits - 1)).
Proof.
  intros Hk Hi Hv bits. split; [|apply wrapInt_bounds].
  unfold setValue, bits. rewrite Hv, (ParseInt_Itoa i Hi).
  by destruct (FieldKind f).
Qed.

Lemma ParseBool_Itoa (i : Z) :
  - 2 ^ 63 <= i < 2 ^ 63 -> i <> 0 -> i <> 1 ->
  strconv.ParseBool (strconv.Itoa i) = Err (strconv.syntaxError "ParseBool" (strconv.Itoa i)).
Proof.
  intros Hi H0 H1. unfold strconv.ParseBool.
  pose proof (ParseInt_Itoa i Hi) as Hp.
  destruct (Itoa_chars i) as (_ & _ & _ & Hc).
  rewrite !bool_decide_eq_false_2; [done| |];
    intros Hin; apply list_elem_of_In in Hin; cbn [In] in Hin;
    repeat match type of Hin with
           | _ \/ _ => destruct Hin as [Hin|Hin]
           end;
    try done;
    rewrite <- Hin in Hp, Hc;
    first [ by vm_compute in Hc | vm_compute in Hp; injection Hp as Hp; lia ].
Qed.

Lemma parseValue_Itoa (i : Z) :
  - 2 ^ 63 <= i < 2 ^ 63 -> i <> 0 -> i <> 1 ->
  parseValue (strconv.Itoa i) = VInt i.
Proof.
  intros Hi H0 H1. unfold parseValue.
  by rewrite (ParseBool_Itoa i Hi H0 H1), (ParseInt_Itoa i Hi).
Qed.

Lemma parseValue_bool (s : string) (b : bool) :
  strconv.ParseBool s = Ok b -> parseValue s = VBool b.
Proof. intros Hb. unfold parseValue. by rewrite Hb. Qed.

(** X5.  What [parseValue] read as a boolean no integer field accepts:
    a default, or a value of the environment, spelled [1], [0], [t],
    [true], ... fails to parse as an integer, as [true] or [false].  Every
    other decimal integer of 64 bits goes through [parseValue] into an
    integer field, reduced to its width. *)
Theorem parseValue_into_int_field (l : Loader) (f : structField) :
  isIntKind (FieldKind f) = true ->
  (forall s b,
     strconv.ParseBool s = Ok b ->
     setValue l f (parseValue s)
     = Err (NumError "ParseInt" (boolText b) ErrSyntax))
  /\ (forall i,
        - 2 ^ 63 <= i < 2 ^ 63 -> i <> 0 -> i <> 1 ->
        setValue l f (parseValue (strconv.Itoa i))
        = Ok (setVal f (VInt (reflect.wrapInt (intBits (FieldKind f)) i)))).
Proof.
  intros Hk. split.
  - intros s b Hb. rewrite (parseValue_bool s b Hb).
    unfold setValue. destruct (FieldKind f); try done; by destruct b.
  - intros i Hi H0 H1. rewrite (parseValue_Itoa i Hi H0 H1).
    unfold setValue. cbn [Sprint]. rewrite (ParseInt_Itoa i Hi).
    by destruct (FieldKind f).
Qed.

Lemma applyField_default (l : Loader) (data : gmap string value) (f : structField) :
  CanSet f = true ->
  unresolved data (getFieldConfig l f) ->
  defaultValue (getFieldConfig l f) <> "" ->
  applyField l data f
  = match setValue l f (parseValue (defaultValue (getFieldConfig l f))) with
    | Err err => Err (Errorf_w ("failed to set default for field " ++ Name f ++ ": ") err)
    | Ok f' => Ok f'
    end.
Proof.
  intros Hc Hu Hd. unfold applyField. rewrite Hc. cbn [negb]. cbv zeta.
  rewrite (findValue_unresolved l data _ Hu).
  by destruct (decide (defaultValue (getFieldConfig l f) = "")).
Qed.

(** X6.  The default of a string field is not stored as written: it is
    read by [parseValue] and printed again.  A spelling of a boolean is
    stored as [true] or [false], a spelling of an integer as that integer
    in decimal; only a text that is neither a boolean, an integer nor a
    float is stored unchanged. *)
Theorem default_text_normalised (l : Loader) (data : gmap string value)
    (f : structField) :
  CanSet f = true ->
  FieldKind f = reflect.String ->
  unresolved data (getFieldConfig l f) ->
  defaultValue (getFieldConfig l f) <> "" ->
  let d := defaultValue (getFieldConfig l f) in
  (forall b, strconv.ParseBool d = Ok b ->
     applyField l data f = Ok (setVal f (VString (boolText b))))
  /\ (forall i, isErr (strconv.ParseBool d) -> strconv.ParseInt d = Ok i ->
        applyField l data f = Ok (setVal f (VString (strconv.Itoa i))))
  /\ (isErr (strconv.ParseBool d) -> isErr (strconv.ParseInt d) ->
      isErr (ParseFloat d) ->
      applyField l data f = Ok (setVal f (VString d))).
Proof.
  intros Hc Hk Hu Hd d. rewrite (applyField_default l data f Hc Hu Hd).
  fold d. unfold setValue, parseValue. rewrite Hk. repeat split.
  - intros b ->. by destruct b.
  - intros i [e ->] ->. done.
  - intros [e1 ->] [e2 ->] [e3 ->]. done.
Qed.

(** X7.  A field with neither a [cfg] nor an [env] tag never
    reads the sources: it is bound as it would be with nothing loaded at
    all. *)
Theorem untagged_field_ignores_sources (l : Loader) (data : gmap string value)
    (f : structField) :
  TagGet (Tag f) "cfg" = "" -> TagGet (Tag f) "env" = "" ->
  applyField l data f = applyField l ∅ f.
Proof.
  intros Hcfg Henv. unfold applyField, findValue, getFieldConfig.
  cbn [envKey cfgKey]. rewrite Hcfg, Henv.
  by destruct (decide ("" = "")).
Qed.

(** X8.  A nil stored under the lower-cased env-key hides the
    cfg-key: the field is bound as if nothing were loaded (its default,
    or left as it is), whatever the namespace holds under the cfg-key. *)
Theorem nil_env_value_hides_config (l : Loader) (data : gmap string value)
    (f : structField) :
  TagGet (Tag f) "env" <> "" ->
  data !! ToLower (TagGet (Tag f) "env") = Some VNil ->
  findValue l data (getFieldConfig l f) = VNil
  /\ applyField l data f = applyField l ∅ f.
Proof.
  intros Henv Hnil.
  assert (findValue l data (getFieldConfig l f) = VNil) as Hv.
  { by apply findValue_env. }
  split; [done|]. unfold applyField. rewrite Hv.
  assert (findValue l ∅ (getFieldConfig l f) = VNil) as ->; [|done].
  apply findValue_unresolved. split; right; apply lookup_empty.
Qed.

(** X9.  A default is never validated: when no source gives a
    value, the outcome for the field does not depend on the registered
    validators, nor on the field's [validate] tag being there. *)
Theorem default_not_validated (l l' : Loader) (data : gmap string value)
    (f : structField) :
  unresolved data (getFieldConfig l f) ->
  applyField l data f = applyField l' data f.
Proof.
  intros Hu. unfold applyField.
  change (getFieldConfig l' f) with (getFieldConfig l f).
  change (findValue l' data (getFieldConfig l f))
    with (findValue l data (getFieldConfig l f)).
  by rewrite (findValue_unresolved l data _ Hu).
Qed.
End binder_values.

Section loader_use.
Context `{Platform}.

Lemma validateRules_ext (l l' : Loader) (fieldName : string) (v : value)
    (rules : list string) :
  validators l = validators l' ->
  validateRules l fieldName v rules = validateRules l' fieldName v rules.
Proof.
  intros Hv. induction rules as [|rule rules IH]; [done|].
  cbn [validateRules]. cbv zeta. by rewrite Hv, IH.
Qed.

Lemma applyField_ext (l l' : Loader) (data : gmap string value) (f : structField) :
  validators l = validators l' -> applyField l data f = applyField l' data f.
Proof.
  intros Hv. unfold applyField, validateField.
  change (getFieldConfig l' f) with (getFieldConfig l f).
  change (findValue l' data (getFieldConfig l f))
    with (findValue l data (getFieldConfig l f)).
  cbv zeta.
  destruct (findValue l data (getFieldConfig l f)); try done;
    by rewrite (validateRules_ext l l' _ _ _ Hv).
Qed.

Lemma applyFields_ext (l l' : Loader) (data : gmap string value)
    (fields : list structField) :
  validators l = validators l' -> applyFields l data fields = applyFields l' data fields.
Proof.
  intros Hv. induction fields as [|f fields IH]; [done|].
  cbn [applyFields]. by rewrite (applyField_ext l l' data f Hv), IH.
Qed.

Lemma mergeSources_ext (srcs srcs' : list Source) (os : OS) :
  map Source.Load srcs = map Source.Load srcs' ->
  forall merged, mergeSources srcs os merged = mergeSources srcs' os merged.
Proof.
  revert srcs'. induction srcs as [|s srcs IH]; intros [|s' srcs'] Hmap merged;
    try done.
  injection Hmap as Hs Hrest. cbn [mergeSources]. rewrite Hs.
  destruct (Source.Load s' os); [|done]. by apply IH.
Qed.

Lemma Load_ext (l l' : Loader) (os : OS) (config : object) :
  map Source.Load (sources l) = map Source.Load (sources l') ->
  validators l = validators l' ->
  Load l os config = Load l' os config.
Proof.
  intros Hs Hv. unfold Load. rewrite (mergeSources_ext _ _ os Hs).
  destruct (mergeSources (sources l') os ∅) as [merged|e]; [|done].
  unfold applyToStruct. cbv zeta.
  destruct (bool_decide _); [done|].
  destruct config as [v|fields|[[v|fields|target]|]]; try done.
  by rewrite (applyFields_ext l l' merged fields Hv).
Qed.

Lemma applyToStruct_ext (l l' : Loader) (config : object)
    (data : gmap string value) :
  validators l = validators l' ->
  applyToStruct l config data = applyToStruct l' config data.
Proof.
  intros Hv. unfold applyToStruct. cbv zeta.
  destruct (bool_decide _); [done|].
  destruct config as [v|fields|[[v|fields|target]|]]; try done.
  by rewrite (applyFields_ext l l' data fields Hv).
Qed.

Lemma applyToStruct_again (l : Loader) (config : object) (data : gmap string value) :
  applyToStruct l (applyToStruct l config data).1 data = applyToStruct l config data.
Proof.
  assert (forall c, (forall fields, c <> pointerToStruct fields) ->
            applyToStruct l c data
            = (c, Some (errorString "config must be a pointer to struct"))) as Hother.
  { intros c Hc. unfold applyToStruct.
    destruct c as [[]|fs|[[[]|fs|t]|]]; try done. by destruct (Hc fs). }
  assert ((exists fields, config = pointerToStruct fields)
          \/ (forall fields, config <> pointerToStruct fields)) as [[fields ->]|Hno].
  { destruct config as [[]|fs|[[[]|fs|t]|]];
      try (right; unfold pointerToStruct; congruence).
    left. by eexists. }
  - rewrite applyToStruct_pointerToStruct. cbn [fst].
    by rewrite applyToStruct_pointerToStruct, applyFields_again.
  - rewrite (Hother config Hno). cbn [fst]. by rewrite (Hother config Hno).
Qed.

(** X2.  Binding is idempotent.  A second [Load] into the target that a
    first call left returns the same target and the same error, provided
    it runs with the same validators and its sources merge to the same
    namespace (or fail with the same error) as those of the first call.
    The second call is given a loader and an operating system of its
    own, because it ranges over its maps and reads its files and the
    environment anew: where two entries of a map flatten to one key, the
    order of the range decides which value the namespace holds, and the
    two calls may then differ. *)
Theorem Load_idempotent (l l2 : Loader) (os os2 : OS) (config : object) :
  validators l2 = validators l ->
  mergeSources (sources l2) os2 ∅ = mergeSources (sources l) os ∅ ->
  Load l2 os2 (Load l os config).1 = Load l os config.
Proof.
  intros Hv Hm. unfold Load. rewrite Hm.
  destruct (mergeSources (sources l) os ∅) as [merged|e]; [|done].
  rewrite (applyToStruct_ext l2 l _ merged Hv). apply applyToStruct_again.
Qed.

(** X10.  [Load] reads of the loader what its sources load, in the
    order of registration, and its validators, and nothing else:
    [Strict] and [EnableValidation] change no result of it, and neither
    does the priority that a source declares. *)
Theorem Strict_changes_nothing (l : Loader) (os : OS) (config : object) :
  Load (Strict l) os config = Load l os config
  /\ Load (EnableValidation l) os config = Load l os config
  /\ forall l',
       map Source.Load (sources l') = map Source.Load (sources l) ->
       validators l' = validators l ->
       Load l' os config = Load l os config.
Proof.
  split; [by apply Load_ext|]. split; [done|]. intros l'. apply Load_ext.
Qed.

Lemma validateRules_AddValidator (l : Loader) (name : string)
    (validator : ValidatorFunc) (fieldName : string) (v : value)
    (rules : list string) :
  Forall (fun clause => ruleName clause <> name) rules ->
  validateRules (AddValidator l name validator) fieldName v rules
  = validateRules l fieldName v rules.
Proof.
  induction 1 as [|clause rules Hc _ IH]; [done|].
  cbn [validateRules]. cbv zeta. cbn [validators AddValidator].
  fold (ruleName clause). rewrite lookup_insert_ne by done. by rewrite IH.
Qed.

(** X11.  [AddValidator] touches one name only.  A rule expression none
    of whose clauses bears that name is judged as before the
    registration; a clause that bears it is judged by the function
    registered last, also where the name is that of a built-in
    validator. *)
Theorem AddValidator_one_name (l : Loader) (name : string)
    (validator : ValidatorFunc) (fieldName : string) (v : value) :
  (forall rules,
     Forall (fun clause => ruleName clause <> name) (strings.Split rules ",") ->
     validateField (AddValidator l name validator) fieldName v rules
     = validateField l fieldName v rules)
  /\ (forall clause rest,
        ruleName clause = name ->
        validateRules (AddValidator l name validator) fieldName v (clause :: rest)
        = match validator v (ruleParam clause) with
          | Some err =>
              Some (ValidationError fieldName v (strings.TrimSpace clause) (Error err))
          | None => validateRules (AddValidator l name validator) fieldName v rest
          end).
Proof.
  split.
  - intros rules Hr. by apply validateRules_AddValidator.
  - intros clause rest Hn. cbn [validateRules]. cbv zeta.
    cbn [validators AddValidator]. fold (ruleName clause). fold (ruleParam clause).
    by rewrite Hn, lookup_insert_eq.
Qed.
End loader_use.

Section validators_extra.
Context `{Platform}.

Lemma allChars_app (p : ascii -> bool) (a b : string) :
  allChars p (a ++ b) = allChars p a && allChars p b.
Proof.
  induction a as [|c a IH]; [done|].
  change (String c a ++ b) with (String c (a ++ b)).
  cbn [allChars]. by rewrite IH, andb_assoc.
Qed.

(** One clause [name:param] written without white space, at the head of
    the clauses. *)
Lemma validateRules_clause (l : Loader) (fieldName : string) (v : value)
    (name param : string) (validator : ValidatorFunc) (rest : list string) :
  strings.Cut name ":" = None ->
  allChars plain name = true -> allChars plain param = true ->
  validators l !! name = Some validator ->
  validateRules l fieldName v ((name ++ String ":" param) :: rest)
  = match validator v param with
    | Some err =>
        Some (ValidationError fieldName v (name ++ String ":" param) (Error err))
    | None => validateRules l fieldName v rest
    end.
Proof.
  intros Hcut Hn Hp Hv. cbn [validateRules]. cbv zeta.
  rewrite TrimSpace_plain
    by (rewrite allChars_app; cbn [allChars]; by rewrite Hn, Hp).
  unfold strings.SplitN2. rewrite (Cut_app name param ":" Hcut).
  cbn [hd]. by rewrite Hv.
Qed.

Lemma min_validator_int (i m : Z) :
  - 2 ^ 63 <= i < 2 ^ 63 -> - 2 ^ 63 <= m < 2 ^ 63 ->
  min_validator (VInt i) (strconv.Itoa m) = None <-> m <= i.
Proof.
  intros Hi Hm. unfold min_validator. cbn [Sprint].
  rewrite (Atoi_Itoa m Hm), (Atoi_Itoa i Hi).
  destruct (i <? m) eqn:Hlt; split; try done; lia.
Qed.

Lemma max_validator_int (i m : Z) :
  - 2 ^ 63 <= i < 2 ^ 63 -> - 2 ^ 63 <= m < 2 ^ 63 ->
  max_validator (VInt i) (strconv.Itoa m) = None <-> i <= m.
Proof.
  intros Hi Hm. unfold max_validator. cbn [Sprint].
  rewrite (Atoi_Itoa m Hm), (Atoi_Itoa i Hi).
  destruct (m <? i) eqn:Hlt; split; try done; lia.
Qed.

(** X12.  [min] and [max] are inclusive bounds on integers of 64 bits,
    and they compose: under the built-in validators the expression
    [min:a,max:b] accepts exactly the integers from [a] to [b], both
    included. *)
Theorem min_max_inclusive (fieldName : string) (i a b : Z) :
  - 2 ^ 63 <= i < 2 ^ 63 -> - 2 ^ 63 <= a < 2 ^ 63 -> - 2 ^ 63 <= b < 2 ^ 63 ->
  (min_validator (VInt i) (strconv.Itoa a) = None <-> a <= i)
  /\ (max_validator (VInt i) (strconv.Itoa b) = None <-> i <= b)
  /\ (validateField New fieldName (VInt i)
        ("min:" ++ strconv.Itoa a ++ ",max:" ++ strconv.Itoa b) = None
      <-> a <= i <= b).
Proof.
  intros Hi Ha Hb.
  pose proof (min_validator_int i a Hi Ha) as Hmin.
  pose proof (max_validator_int i b Hi Hb) as Hmax.
  split; [done|]. split; [done|].
  unfold validateField.
  change ("min:" ++ strconv.Itoa a ++ ",max:" ++ strconv.Itoa b)
    with (("min" ++ String ":" (strconv.Itoa a))
          ++ String "," ("max" ++ String ":" (strconv.Itoa b))).
  rewrite Split_app.
  rewrite !Split_one
    by (rewrite allChars_app; cbn [allChars]; by rewrite Itoa_no_comma).
  cbn [app].
  rewrite (validateRules_clause New fieldName (VInt i) "min" (strconv.Itoa a)
             min_validator) by (done || apply Itoa_plain).
  destruct (min_validator (VInt i) (strconv.Itoa a)) eqn:Emin.
  - split; [done|]. intros [Hlo _]. apply Hmin in Hlo. done.
  - rewrite (validateRules_clause New fieldName (VInt i) "max" (strconv.Itoa b)
               max_validator) by (done || apply Itoa_plain).
    destruct (max_validator (VInt i) (strconv.Itoa b)) eqn:Emax.
    + split; [done|]. intros [_ Hhi]. apply Hmax in Hhi. done.
    + cbn [validateRules]. split; [|done]. intros _. split; [by apply Hmin|by apply Hmax].
Qed.

(** X13.  Through a [validate] tag the [range] rule can never pass.
    The tag is split at every comma before the rule is looked at, so the
    validator is handed the text before the first comma and asks for two
    bounds: the field is rejected whatever its value and whatever follows
    the comma. *)
Theorem range_rule_always_fails (l : Loader) (fieldName : string) (v : value)
    (low rest : string) :
  validators l !! "range" = Some range_validator ->
  allChars plain low = true ->
  allChars (fun c => negb (Ascii.eqb c ",")) low = true ->
  validateField l fieldName v ("range:" ++ low ++ "," ++ rest)
  = Some (ValidationError fieldName v ("range:" ++ low)
            "range validator requires min,max parameters").
Proof.
  intros Hv Hplain Hcomma. unfold validateField.
  change ("range:" ++ low ++ "," ++ rest)
    with (("range" ++ String ":" low) ++ String "," rest).
  rewrite Split_app.
  rewrite Split_one by (rewrite allChars_app; cbn [allChars]; by rewrite Hcomma).
  cbn [app].
  rewrite (validateRules_clause l fieldName v "range" low range_validator)
    by done.
  unfold range_validator. by rewrite (Split_one low "," Hcomma).
Qed.

(** C9.  The bounds of the [range] rule never reach its validator.
    Called on its own with the parameter [min,max], the validator accepts
    an integer between the bounds, both included; but [validateField],
    its only caller, splits the rule expression at every comma before it
    cuts a clause at the colon, so for [range:min,max] the validator gets
    the text of [min] alone and answers that it requires two parameters.
    Every value is rejected, also 1000 and 9999 under [range:1000,9999]. *)
Theorem range_bounds_never_reach_validator (fieldName : string) (i min max : Z) :
  - 2 ^ 63 <= i < 2 ^ 63 -> - 2 ^ 63 <= min < 2 ^ 63 -> - 2 ^ 63 <= max < 2 ^ 63 ->
  min <= i <= max ->
  range_validator (VInt i) (strconv.Itoa min ++ "," ++ strconv.Itoa max) = None
  /\ validateField New fieldName (VInt i)
       ("range:" ++ strconv.Itoa min ++ "," ++ strconv.Itoa max)
     = Some (ValidationError fieldName (VInt i) ("range:" ++ strconv.Itoa min)
               "range validator requires min,max parameters")
  /\ forall v,
       validateField New fieldName v
         ("range:" ++ strconv.Itoa min ++ "," ++ strconv.Itoa max)
       = Some (ValidationError fieldName v ("range:" ++ strconv.Itoa min)
                 "range validator requires min,max parameters").
Proof.
  intros Hi Hmin Hmax Hin.
  assert (forall v,
            validateField New fieldName v
              ("range:" ++ strconv.Itoa min ++ "," ++ strconv.Itoa max)
            = Some (ValidationError fieldName v ("range:" ++ strconv.Itoa min)
                      "range validator requires min,max parameters")) as Htag.
  { intros v. unfold validateField.
    change ("range:" ++ strconv.Itoa min ++ "," ++ strconv.Itoa max)
      with (("range" ++ String ":" (strconv.Itoa min))
            ++ String "," (strconv.Itoa max)).
    rewrite Split_app.
    rewrite (Split_one ("range" ++ String ":" (strconv.Itoa min)))
      by (rewrite allChars_app; cbn [allChars]; by rewrite Itoa_no_comma).
    cbn [app].
    rewrite (validateRules_clause New fieldName v "range" (strconv.Itoa min)
               range_validator) by (done || apply Itoa_plain).
    unfold range_validator.
    by rewrite (Split_one (strconv.Itoa min) "," (Itoa_no_comma min)). }
  split; [by apply range_validator_integers|]. split; [apply Htag|exact Htag].
Qed.

(** X14.  [required] looks at the printed text only: it rejects nil and
    the empty string and nothing else.  The integer 0, [false] and a
    string of blanks all pass, and the parameter is ignored. *)
Theorem required_accepts_zero_values (v : value) (param : string) :
  (required_validator v param = None <-> v <> VNil /\ Sprint v <> "")
  /\ (forall i, required_validator (VInt i) param = None)
  /\ (forall b, required_validator (VBool b) param = None)
  /\ (forall s, required_validator (VString s) param = None <-> s <> "")
  /\ required_validator VNil param = Some (errorString "field is required").
Proof.
  assert (forall w, required_validator w param = None <-> w <> VNil /\ Sprint w <> "")
    as Hgen.
  { intros w. unfold required_validator.
    destruct (bool_decide (Sprint w = "")) eqn:Hs.
    - apply bool_decide_eq_true in Hs. rewrite orb_true_r. split; [done|].
      by intros [_ ?].
    - apply bool_decide_eq_false in Hs. rewrite orb_false_r.
      destruct w; split; try done; by intros [? _]. }
  split; [apply Hgen|]. repeat split.
  - intros i. apply Hgen. split; [done|]. cbn [Sprint].
    destruct (Itoa_chars i) as (c & r & -> & _). done.
  - intros b. apply Hgen. split; [done|]. by destruct b.
  - intros Hn. by apply Hgen in Hn as [_ ?].
  - intros Hs. by apply Hgen.
Qed.

Lemma builtin_validator_cases (name : string) (validator : ValidatorFunc) :
  getBuiltinValidators !! name = Some validator ->
  validator = required_validator \/ validator = url_validator
  \/ validator = range_validator \/ validator = email_validator
  \/ validator = min_validator \/ validator = max_validator.
Proof.
  intros Hl. apply elem_of_list_to_map_2 in Hl.
  apply list_elem_of_In in Hl. cbn [In] in Hl.
  repeat match type of Hl with
         | _ \/ _ => destruct Hl as [Hl|Hl]
         end;
    try done; injection Hl as _ <-; tauto.
Qed.

(** X15.  The built-in validators judge a value by the text that [%v]
    prints for it and by nothing else: two values that are not nil and
    print alike are accepted or rejected alike, with the same message,
    under the same parameter. *)
Theorem builtin_validators_judge_text (name : string) (validator : ValidatorFunc)
    (v v' : value) (param : string) :
  getBuiltinValidators !! name = Some validator ->
  v <> VNil -> v' <> VNil -> Sprint v = Sprint v' ->
  validator v param = validator v' param.
Proof.
  intros Hl Hv Hv' Hs.
  destruct (builtin_validator_cases name validator Hl)
    as [->|[->|[->|[->|[->| ->]]]]];
    unfold required_validator, url_validator, range_validator, email_validator,
      min_validator, max_validator; rewrite Hs; try done.
  by destruct v, v'.
Qed.
End validators_extra.

Section sources_extra.
Context `{Platform}.

Lemma parseValue_scalar (s : string) :
  parseValue s <> VNil /\ isMap (parseValue s) = false.
Proof.
  unfold parseValue.
  destruct (strconv.ParseBool s); [done|].
  destruct (strconv.ParseInt s); [done|].
  by destruct (ParseFloat s).
Qed.

Lemma Cut_Some (s : string) (sep : ascii) (before after : string) :
  strings.Cut s sep = Some (before, after) ->
  s = before ++ String sep after /\ strings.Cut before sep = None.
Proof.
  revert before. induction s as [|c s IH]; intros before; [done|].
  cbn [strings.Cut]. destruct (Ascii.eqb c sep) eqn:Hc.
  - apply Ascii.eqb_eq in Hc as ->. by intros [= <- <-].
  - destruct (strings.Cut s sep) as [[b a]|] eqn:Hcut; [|done].
    intros [= <- <-]. destruct (IH b eq_refl) as [-> Hb].
    split; [done|]. cbn [strings.Cut]. by rewrite Hc, Hb.
Qed.

Lemma EnvSource_entry_pair (out : gmap string value) (env name val : string) :
  strings.Cut env "=" = Some (name, val) ->
  EnvSource_entry out env = <[ToLower name := parseValue val]> out.
Proof.
  intros Hcut. unfold EnvSource_entry, strings.SplitN2. rewrite Hcut.
  destruct (parseValue_scalar val) as [Hnil _].
  by destruct (parseValue val).
Qed.

Lemma EnvSource_entry_other (out : gmap string value) (env : string) :
  strings.Cut env "=" = None -> EnvSource_entry out env = out.
Proof. intros Hcut. unfold EnvSource_entry, strings.SplitN2. by rewrite Hcut. Qed.

Lemma EnvSource_fold_frame (k : string) (environ : list string) :
  Forall (fun env => forall name val,
            strings.Cut env "=" = Some (name, val) -> ToLower name <> k) environ ->
  forall out, foldl EnvSource_entry out environ !! k = out !! k.
Proof.
  induction 1 as [|env environ Henv _ IH]; intros out; [done|].
  cbn [foldl]. rewrite IH.
  destruct (strings.Cut env "=") as [[name val]|] eqn:Hcut.
  - rewrite (EnvSource_entry_pair out env name val Hcut).
    apply lookup_insert_ne. by apply (Henv name val).
  - by rewrite (EnvSource_entry_other out env Hcut).
Qed.

Lemma EnvSource_fold_origin (environ : list string) :
  forall out k v,
    foldl EnvSource_entry out environ !! k = Some v ->
    out !! k = Some v
    \/ exists name val,
         name ++ String "=" val ∈ environ /\ strings.Cut name "=" = None
         /\ k = ToLower name /\ v = parseValue val.
Proof.
  induction environ as [|env environ IH]; intros out k v; [by left|].
  cbn [foldl]. intros Hk. apply IH in Hk as [Hk|(name & val & Hin & ?)].
  - destruct (strings.Cut env "=") as [[name val]|] eqn:Hcut.
    + rewrite (EnvSource_entry_pair out env name val Hcut) in Hk.
      destruct (decide (ToLower name = k)) as [<-|Hne].
      * rewrite lookup_insert_eq in Hk. injection Hk as <-.
        destruct (Cut_Some _ _ _ _ Hcut) as [-> Hname].
        right. exists name, val. split; [apply list_elem_of_here|done].
      * rewrite lookup_insert_ne in Hk by done. by left.
    + rewrite (EnvSource_entry_other out env Hcut) in Hk. by left.
  - right. exists name, val. split; [by apply list_elem_of_further|done].
Qed.

(** X16.  The source of the environment never fails.  Each entry is cut
    at its first [=]; the name, in lower case, is the key and the rest,
    read by [parseValue], the value; of the entries whose names agree in
    lower case the last one wins, and an entry without [=] adds nothing.
    So every key of the result is the lower-cased name of an entry, and
    its value is what [parseValue] reads of that entry's text. *)
Theorem EnvSource_Load_entries (os : OS) :
  exists out,
    Source.Load EnvSource os = Ok out
    /\ (forall pre post name val,
          Environ os = (pre ++ (name ++ String "=" val)%string :: post)%list ->
          strings.Cut name "=" = None ->
          Forall (fun env => forall name' val',
                    strings.Cut env "=" = Some (name', val') ->
                    ToLower name' <> ToLower name) post ->
          out !! ToLower name = Some (parseValue val))
    /\ (forall k v,
          out !! k = Some v ->
          exists name val,
            name ++ String "=" val ∈ Environ os /\ strings.Cut name "=" = None
            /\ k = ToLower name /\ v = parseValue val).
Proof.
  eexists. split; [done|]. split.
  - intros pre post name val Henv Hname Hpost. rewrite Henv, foldl_app.
    cbn [foldl]. rewrite (EnvSource_fold_frame _ post Hpost).
    rewrite (EnvSource_entry_pair _ _ name val (Cut_app name val "=" Hname)).
    apply lookup_insert_eq.
  - intros k v Hk. by apply EnvSource_fold_origin in Hk as [Hk|Hk].
Qed.

Lemma lastIndexFrom_none (s : string) (sep : ascii) :
  allChars (fun c => negb (Ascii.eqb c sep)) s = true ->
  forall i found, strings.lastIndexFrom i s sep found = found.
Proof.
  induction s as [|c s IH]; [done|]. cbn [allChars].
  intros [Hc Hs]%andb_true_iff i found. cbn [strings.lastIndexFrom].
  rewrite (IH Hs). by apply negb_true_iff in Hc as ->.
Qed.

Lemma lastIndexFrom_last (base ext : string) (sep : ascii) :
  allChars (fun c => negb (Ascii.eqb c sep)) ext = true ->
  forall i found,
    strings.lastIndexFrom i (base ++ String sep ext) sep found
    = i + Z.of_nat (String.length base).
Proof.
  intros Hext. induction base as [|c base IH]; intros i found.
  - change (EmptyString ++ String sep ext) with (String sep ext).
    cbn [strings.lastIndexFrom]. rewrite (lastIndexFrom_none ext sep Hext).
    rewrite Ascii.eqb_refl. cbn [String.length]. lia.
  - change (String c base ++ String sep ext) with (String c (base ++ String sep ext)).
    cbn [strings.lastIndexFrom]. rewrite IH. cbn [String.length]. lia.
Qed.

Lemma substring_all (s : string) : String.substring 0 (String.length s) s = s.
Proof. induction s as [|c s IH]; [done|]. cbn. by rewrite IH. Qed.

Lemma sliceFrom_app (base ext : string) (sep : ascii) :
  strings.sliceFrom (base ++ String sep ext) (Z.of_nat (String.length base) + 1) = ext.
Proof.
  unfold strings.sliceFrom.
  replace (Z.to_nat (Z.of_nat (String.length base) + 1))
    with (S (String.length base)) by lia.
  induction base as [|c base IH].
  - change (EmptyString ++ String sep ext) with (String sep ext).
    cbn [String.length String.substring].
    replace (S (String.length ext) - 1)%nat with (String.length ext) by lia.
    apply substring_all.
  - change (String c base ++ String sep ext) with (String c (base ++ String sep ext)).
    cbn [String.length]. cbn [String.substring]. exact IH.
Qed.

(** The extension that [FileSource.Load] computes: what follows the last
    dot of the path, or the whole path when it has no dot. *)
Lemma extension_after_last_dot (base ext : string) :
  allChars (fun c => negb (Ascii.eqb c ".")) ext = true ->
  strings.sliceFrom (base ++ String "." ext)
    (strings.LastIndex (base ++ String "." ext) "." + 1) = ext.
Proof.
  intros Hext. unfold strings.LastIndex.
  rewrite (lastIndexFrom_last base ext "." Hext). apply sliceFrom_app.
Qed.

Lemma extension_without_dot (path : string) :
  allChars (fun c => negb (Ascii.eqb c ".")) path = true ->
  strings.sliceFrom path (strings.LastIndex path "." + 1) = path.
Proof.
  intros Hp. unfold strings.LastIndex. rewrite (lastIndexFrom_none path "." Hp).
  unfold strings.sliceFrom. cbn. rewrite Nat.sub_0_r. apply substring_all.
Qed.

(** X17.  A file source chooses its decoder by what follows the last
    dot of the path, compared in lower case: [json] goes to the JSON
    decoder, [yaml] and [yml] to the YAML decoder, and what is decoded is
    flattened; anything else is an error that names the extension.  A
    file that does not exist gives the empty map before the extension is
    looked at. *)
Theorem FileSource_Load_by_extension (os : OS) (base ext : string) :
  allChars (fun c => negb (Ascii.eqb c ".")) ext = true ->
  let path := base ++ String "." ext in
  (ReadFile os path = FileNotExist -> Source.Load (FileSource path) os = Ok ∅)
  /\ (forall data,
        ReadFile os path = FileData data ->
        (ToLower ext = "json" ->
         Source.Load (FileSource path) os
         = match jsonUnmarshal data with
           | Ok parsed => Ok (flattenMap parsed "")
           | Err e => Err (Errorf_w ("failed to parse " ++ path ++ ": ") e)
           end)
        /\ (ToLower ext = "yaml" \/ ToLower ext = "yml" ->
            Source.Load (FileSource path) os
            = match yamlUnmarshal data with
              | Ok parsed => Ok (flattenMap parsed "")
              | Err e => Err (Errorf_w ("failed to parse " ++ path ++ ": ") e)
              end)
        /\ (ToLower ext <> "json" -> ToLower ext <> "yaml" -> ToLower ext <> "yml" ->
            Source.Load (FileSource path) os
            = Err (errorString ("unsupported file format: " ++ ToLower ext)))).
Proof.
  intros Hext path. cbn [Source.Load FileSource]. unfold FileSource_Load. split.
  - by intros ->.
  - intros data ->. cbv zeta. unfold path.
    rewrite (extension_after_last_dot base ext Hext).
    split; [|split].
    + intros ->. cbn. by destruct (jsonUnmarshal data).
    + intros Hy. destruct (decide (ToLower ext = "json")) as [Hj|_].
      { rewrite Hj in Hy. by destruct Hy. }
      rewrite decide_True by done. by destruct (yamlUnmarshal data).
    + intros Hj Hy1 Hy2. rewrite decide_False by done.
      rewrite decide_False by tauto. done.
Qed.

Lemma flatNamespace_empty : flatNamespace ∅.
Proof. intros k v Hk. by rewrite lookup_empty in Hk. Qed.

Lemma flatNamespace_flattenMap (m : entries) (prefix : string) :
  flatNamespace (flattenMap m prefix).
Proof. intros k v Hk. by apply flattenMap_lookup_leaf in Hk as [? _]. Qed.

Lemma flatNamespace_mergeMaps (dst src : gmap string value) :
  flatNamespace dst -> flatNamespace src -> flatNamespace (mergeMaps dst src).
Proof.
  intros Hd Hs k v. rewrite lookup_mergeMaps.
  destruct (src !! k) as [w|] eqn:Hk.
  - intros [= <-]. by apply (Hs k).
  - apply Hd.
Qed.

Lemma builtinSource_flat (s : Source) (os : OS) (out : gmap string value) :
  builtinSource s -> Source.Load s os = Ok out -> flatNamespace out.
Proof.
  intros [[data ->]|[[path ->]| ->]].
  - intros [= <-]. apply flatNamespace_flattenMap.
  - cbn [Source.Load FileSource]. unfold FileSource_Load.
    destruct (ReadFile os path) as [data| |e]; [|by intros [= <-]; apply flatNamespace_empty|done].
    cbv zeta.
    repeat match goal with
           | |- context [decide ?P] => destruct (decide P)
           end;
      try done;
      match goal with
      | |- context [match ?r with Ok _ => _ | Err _ => _ end] => destruct r
      end;
      try done; intros [= <-]; apply flatNamespace_flattenMap.
  - intros [= <-]. intros k v Hk.
    apply EnvSource_fold_origin in Hk as [Hk|(name & val & _ & _ & _ & ->)].
    + by rewrite lookup_empty in Hk.
    + apply parseValue_scalar.
Qed.

Lemma mergeSources_flat (srcs : list Source) (os : OS) :
  Forall builtinSource srcs ->
  forall acc merged,
    flatNamespace acc -> mergeSources srcs os acc = Ok merged -> flatNamespace merged.
Proof.
  induction 1 as [|s srcs Hs _ IH]; intros acc merged Hacc.
  - by intros [= <-].
  - cbn [mergeSources]. destruct (Source.Load s os) as [out|e] eqn:Hout; [|done].
    apply IH. apply flatNamespace_mergeMaps; [done|].
    by apply (builtinSource_flat s os).
Qed.

Lemma Built_sources (l : Loader) : Built l -> Forall builtinSource (sources l).
Proof.
  induction 1; cbn [sources New AddFile AddEnv AddMap AddSource EnableValidation
                      Strict AddValidator]; try done;
    apply Forall_app; (split; [done|]); apply Forall_singleton;
    unfold builtinSource; eauto.
Qed.

(** X18.  Whatever loader the exported functions build, the namespace
    that [Load] merges from its sources is flat: no key of it is bound to
    a mapping, so no field is ever handed a nested map. *)
Theorem merged_namespace_flat (l : Loader) (os : OS) (merged : gmap string value) :
  Built l ->
  mergeSources (sources l) os ∅ = Ok merged ->
  flatNamespace merged.
Proof.
  intros Hl. apply mergeSources_flat; [by apply Built_sources|apply flatNamespace_empty].
Qed.

Lemma mergeSources_Ok (srcs : list Source) (os : OS) :
  Forall (fun s => exists out, Source.Load s os = Ok out) srcs ->
  forall acc, exists merged, mergeSources srcs os acc = Ok merged.
Proof.
  induction 1 as [|s srcs [out Hs] _ IH]; intros acc; [by eexists|].
  cbn [mergeSources]. rewrite Hs. apply IH.
Qed.

(** X19.  A file that does not exist is no error.  With a loader that
    the exported functions build, [Load] gets past its sources whenever
    every registered file is missing: maps and the environment never
    fail to load. *)
Theorem missing_files_are_skipped (l : Loader) (os : OS) :
  Built l ->
  (forall path, FileSource path ∈ sources l -> ReadFile os path = FileNotExist) ->
  exists merged, mergeSources (sources l) os ∅ = Ok merged.
Proof.
  intros Hl Hmissing. apply mergeSources_Ok.
  apply Forall_forall. intros s Hs.
  pose proof (Built_sources l Hl) as Hb.
  rewrite Forall_forall in Hb. destruct (Hb s Hs) as [[data ->]|[[path ->]| ->]].
  - by eexists.
  - cbn [Source.Load FileSource]. unfold FileSource_Load.
    rewrite (Hmissing path Hs). by eexists.
  - by eexists.
Qed.

(** X20.  The exported functions never remove a validator: in every
    loader they build, each of the six built-in names is registered. *)
Theorem builtin_names_stay_registered (l : Loader) (name : string) :
  Built l ->
  name ∈ ["required"; "url"; "range"; "email"; "min"; "max"] ->
  is_Some (validators l !! name).
Proof.
  intros Hl Hname. induction Hl;
    cbn [validators New AddFile AddEnv AddMap AddSource EnableValidation
           Strict AddValidator];
    try done.
  - apply list_elem_of_In in Hname. cbn [In] in Hname.
    repeat match type of Hname with
           | _ \/ _ => destruct Hname as [Hname|Hname]
           end;
      try done; subst name; by eexists.
  - destruct (decide (name0 = name)) as [->|Hne].
    + rewrite lookup_insert_eq. by eexists.
    + by rewrite lookup_insert_ne.
Qed.
End sources_extra.

Section round_trips.
Context `{Platform}.

(** X21.  A boolean field takes the twelve spellings of
    [strconv.ParseBool] and nothing else.  A boolean comes back as it
    is, what [parseValue] read as a boolean is stored as that boolean,
    the integers 0 and 1 are stored as [false] and [true], and every
    other integer of 64 bits is an error. *)
Theorem setValue_bool_field (l : Loader) (f : structField) :
  FieldKind f = reflect.Bool ->
  (forall b, setValue l f (VBool b) = Ok (setVal f (VBool b)))
  /\ (forall s b, strconv.ParseBool s = Ok b ->
        setValue l f (parseValue s) = Ok (setVal f (VBool b)))
  /\ setValue l f (VInt 0) = Ok (setVal f (VBool false))
  /\ setValue l f (VInt 1) = Ok (setVal f (VBool true))
  /\ (forall i, - 2 ^ 63 <= i < 2 ^ 63 -> i <> 0 -> i <> 1 ->
        setValue l f (VInt i)
        = Err (NumError "ParseBool" (strconv.Itoa i) ErrSyntax)).
Proof.
  intros Hk. unfold setValue. rewrite Hk. repeat split.
  - by intros [].
  - intros s b Hb. rewrite (parseValue_bool s b Hb). by destruct b.
  - intros i Hi H0 H1. cbn [Sprint]. by rewrite (ParseBool_Itoa i Hi H0 H1).
Qed.

(** X22.  An integer put into a map source comes out in the field
    bound to its key.  With one map source, a struct of one [int] field
    tagged [cfg] with a key under which the flattened map holds an
    integer of 64 bits, and no other tag, [Load] returns no error and the
    field holds that integer. *)
Theorem Load_map_round_trip (os : OS) (data : entries) (k name : string)
    (i : Z) (old : value) :
  k <> "" ->
  - 2 ^ 63 <= i < 2 ^ 63 ->
  flattenMap data "" !! k = Some (VInt i) ->
  Load (AddMap New data) os
    (pointerToStruct
       [{| Name := name; Tag := [("cfg", k)]; FieldKind := reflect.Int;
           CanSet := true; Val := old |}])
  = (pointerToStruct
       [{| Name := name; Tag := [("cfg", k)]; FieldKind := reflect.Int;
           CanSet := true; Val := VInt i |}], None).
Proof.
  intros Hk Hi Hdata. unfold Load.
  change (mergeSources (sources (AddMap New data)) os ∅)
    with (Ok (A:=gmap string value) (mergeMaps ∅ (flattenMap data ""))).
  cbv iota beta. rewrite applyToStruct_pointerToStruct.
  set (field := {| Name := name; Tag := [("cfg", k)]; FieldKind := reflect.Int;
                   CanSet := true; Val := old |}).
  assert (applyField (AddMap New data) (mergeMaps ∅ (flattenMap data "")) field
          = Ok (setVal field (VInt i))) as Hf.
  { unfold applyField. cbn [CanSet field negb]. cbv zeta.
    assert (findValue (AddMap New data) (mergeMaps ∅ (flattenMap data ""))
              (getFieldConfig (AddMap New data) field) = VInt i) as ->.
    { apply findValue_cfg.
      - by left.
      - unfold getFieldConfig. cbn [cfgKey Tag field TagGet].
        by rewrite decide_True by done.
      - unfold getFieldConfig. cbn [cfgKey Tag field TagGet].
        rewrite decide_True by done.
        by rewrite lookup_mergeMaps, Hdata. }
    assert (validate (getFieldConfig (AddMap New data) field) = "") as ->.
    { unfold getFieldConfig. cbn [validate Tag field TagGet].
      by rewrite decide_False by done. }
    rewrite decide_True by done.
    destruct (setValue_int_field_exact (AddMap New data) field i) as [Hset Hexact];
      [done..|].
    rewrite Hset. by rewrite Hexact. }
  by rewrite (applyFields_cons_ok _ _ _ _ _ Hf).
Qed.
End round_trips.

Section composition.
Context `{Platform}.

(** X23.  [mergeMaps] keeps every key of both maps and lets the source
    win where both have one.  Merging is associative, the empty map is
    neutral on both sides, and merging a map into itself changes
    nothing. *)
Theorem mergeMaps_laws (a b c : gmap string value) :
  (forall k, mergeMaps a b !! k
             = match b !! k with Some v => Some v | None => a !! k end)
  /\ mergeMaps a ∅ = a
  /\ mergeMaps ∅ a = a
  /\ mergeMaps (mergeMaps a b) c = mergeMaps a (mergeMaps b c)
  /\ mergeMaps a a = a.
Proof.
  split; [intros k; apply lookup_mergeMaps|].
  rewrite !mergeMaps_union. repeat split.
  - apply (left_id_L ∅ (∪)).
  - apply (right_id_L ∅ (∪)).
  - by rewrite (assoc_L (∪)).
  - apply (idemp_L (∪)).
Qed.

Lemma applyFields_no_error (l : Loader) (data : gmap string value)
    (fields : list structField) :
  (applyFields l data fields).2 = None ->
  Forall2 (fun f f' => applyField l data f = Ok f') fields (applyFields l data fields).1.
Proof.
  induction fields as [|f fields IH]; [constructor|].
  destruct (applyField l data f) as [f'|e] eqn:Hf.
  - rewrite (applyFields_cons_ok _ _ _ _ _ Hf). cbn [fst snd].
    intros Hn. constructor; [done|by apply IH].
  - by rewrite (applyFields_cons_err _ _ _ _ _ Hf).
Qed.

(** X24.  [Load] returns no error exactly when every source loads and
    every field binds against the merged namespace; the struct it leaves
    then holds, field by field, what the binding of that field alone
    gives. *)
Theorem Load_succeeds_iff (l : Loader) (os : OS) (fields : list structField) :
  (Load l os (pointerToStruct fields)).2 = None
  <-> exists merged fields',
        mergeSources (sources l) os ∅ = Ok merged
        /\ Forall2 (fun f f' => applyField l merged f = Ok f') fields fields'
        /\ (Load l os (pointerToStruct fields)).1 = pointerToStruct fields'.
Proof.
  unfold Load. destruct (mergeSources (sources l) os ∅) as [merged|e].
  - rewrite applyToStruct_pointerToStruct. cbn [fst snd]. split.
    + intros Hn. exists merged, (applyFields l merged fields).1.
      split; [done|]. split; [by apply applyFields_no_error|done].
    + intros (merged' & fields' & [= <-] & Hall & _).
      pose proof (applyFields_app_ok l merged fields fields' [] Hall) as Happ.
      rewrite app_nil_r in Happ. by rewrite Happ.
  - split; [done|]. by intros (merged' & fields' & ? & _).
Qed.
End composition.

(** ** The theorems at the data of the repository's tests *)

#[local] Existing Instance Reference.platform.

(** The claim C3 as the specification words it, with a lookup of the
    env-key that ignores letter case, fails on a namespace whose key is
    not in lower case: with [PORT] as its only key, from a map source,
    and the env-key [PORT], [findValue] looks up [port] and finds
    nothing. *)
Lemma findValue_case_counterexample :
  ~ (forall (P : Platform) (l : Loader) (data : gmap string value)
            (cfg : fieldConfig) (k : string) (v : value),
       envKey cfg <> "" ->
       data !! k = Some v ->
       ToLower k = ToLower (envKey cfg) ->
       (forall k', is_Some (data !! k') -> ToLower k' = ToLower (envKey cfg) -> k' = k) ->
       findValue l data cfg = v).
Proof.
  intros Hclaim.
  specialize (Hclaim Reference.platform New {[ "PORT" := VInt 8080 ]}
                {| cfgKey := ""; envKey := "PORT"; validate := ""; defaultValue := "" |}
                "PORT" (VInt 8080)).
  assert (findValue New {[ "PORT" := VInt 8080 ]}
            {| cfgKey := ""; envKey := "PORT"; validate := ""; defaultValue := "" |}
          = VInt 8080) as Hfound; [|discriminate Hfound].
  apply Hclaim; [discriminate|reflexivity|reflexivity|].
  intros k' [v' Hk'] _. apply lookup_singleton_Some in Hk' as [-> _]. done.
Qed.

Lemma merge_registration_order_witness :
  exists merged,
    mergeSources [MapSource [("test_port", VInt 3000); ("debug", VBool true)]; EnvSource]
      testOS ∅ = Ok merged
    /\ merged !! "test_port" = Some (VInt 9090)
    /\ merged !! "debug" = Some (VBool true).
Proof.
  destruct (merge_registration_order
              [MapSource [("test_port", VInt 3000); ("debug", VBool true)]; EnvSource]
              testOS
              [flattenMap [("test_port", VInt 3000); ("debug", VBool true)] "";
               foldl EnvSource_entry ∅ (Environ testOS)])
    as (merged & Hm & _ & Hlast & _).
  - repeat constructor.
  - exists merged. split; [exact Hm|]. split.
    + apply (Hlast "test_port" 1%nat (foldl EnvSource_entry ∅ (Environ testOS)));
        [reflexivity|reflexivity|].
      intros [|[|j]] out' Hj Hout; [lia|lia|discriminate].
    + apply (Hlast "debug" 0%nat
               (flattenMap [("test_port", VInt 3000); ("debug", VBool true)] ""));
        [reflexivity|reflexivity|].
      intros [|[|j]] out' Hj Hout; [lia| |discriminate].
      by injection Hout as <-.
Defined.

Lemma absent_field_left_untouched_witness :
  let l := AddMap New [("port", VInt 8080)] in
  let fields :=
    [testField "Port" [("cfg", "port")] reflect.Int (VInt 0);
     testField "Email" [("cfg", "email"); ("validate", "required,email")]
       reflect.String (VString "")] in
  applyField l {[ "port" := VInt 8080 ]} (testField "Email"
      [("cfg", "email"); ("validate", "required,email")] reflect.String (VString ""))
  = Ok (testField "Email" [("cfg", "email"); ("validate", "required,email")]
          reflect.String (VString "")).
Proof.
  intros l fields.
  apply (absent_field_left_untouched l testOS {[ "port" := VInt 8080 ]} fields 1%nat).
  - reflexivity.
  - reflexivity.
  - split; [by left|by right].
  - reflexivity.
Defined.

Lemma findValue_env_before_config_witness :
  findValue New {[ "port" := VInt 3000; "test_port" := VInt 9090 ]}
    {| cfgKey := "port"; envKey := "TEST_PORT"; validate := ""; defaultValue := "8080" |}
  = VInt 9090.
Proof.
  destruct (findValue_env_before_config New
              {[ "port" := VInt 3000; "test_port" := VInt 9090 ]}
              {| cfgKey := "port"; envKey := "TEST_PORT"; validate := "";
                 defaultValue := "8080" |}) as (Henv & _).
  apply Henv.
  - discriminate.
  - reflexivity.
Defined.

Lemma Load_aborts_on_first_error_witness :
  let l := AddMap New [("port", VInt 8080); ("email", VString "invalid-email");
                       ("name", VString "app")] in
  let port := testField "Port" [("cfg", "port")] reflect.Int (VInt 0) in
  let email := testField "Email" [("cfg", "email"); ("validate", "required,email")]
                 reflect.String (VString "") in
  let name := testField "Name" [("cfg", "name")] reflect.String (VString "") in
  Load l testOS (pointerToStruct [port; email; name])
  = (pointerToStruct [setVal port (VInt 8080); email; name],
     Some (ValidationError "Email" (VString "invalid-email") "email"
             "invalid email format")).
Proof.
  intros l port email name.
  destruct (Load_aborts_on_first_error l testOS) as (_ & Hfield & _).
  apply (Hfield {[ "port" := VInt 8080; "email" := VString "invalid-email";
                   "name" := VString "app" ]}
           [port] [setVal port (VInt 8080)] email [name]).
  - reflexivity.
  - repeat constructor.
  - reflexivity.
Defined.


Lemma flattenMap_idempotent_witness :
  let m := [("database", VMap [("url", VString "postgres://localhost/test");
                               ("pool", VMap [("size", VInt 20)])]);
            ("debug", VBool true)] in
  flattenMap (map_to_list (flattenMap m "")) "" = flattenMap m "".
Proof.
  intros m.
  by apply (flattenMap_idempotent m (map_to_list (flattenMap m "")) "").
Defined.

Lemma parseValue_first_success_witness :
  parseValue "3.14" = VFloat 0x1.91eb851eb851fp+1
  /\ parseValue "hello" = VString "hello".
Proof.
  destruct parseValue_first_success as (_ & _ & _ & Hfloat & Hstring & _). split.
  - apply Hfloat. reflexivity.
  - apply Hstring. by eexists.
Defined.

Lemma unknown_rule_skipped_witness :
  validateField New "Email" (VString "invalid-email") "required,nosuchrule,email"
  = validateField New "Email" (VString "invalid-email") "required,email".
Proof.
  destruct (unknown_rule_skipped New "Email" (VString "invalid-email") "nosuchrule")
    as (_ & Htext).
  - reflexivity.
  - destruct Htext as (_ & _ & _ & Hbetween); [reflexivity|].
    apply (Hbetween "required" "email").
Defined.

Lemma range_validator_inclusive_witness :
  range_validator (VString "8080") " 1000, 9999" = None.
Proof.
  destruct range_validator_inclusive as (Hgen & _).
  apply (Hgen (VString "8080") " 1000, 9999").
  exists " 1000", " 9999", 1000, 9999, 8080. by repeat split.
Defined.

Lemma Load_rejects_other_targets_witness :
  Load (AddMap New [("port", VInt 8080)]) testOS
    (StructOf [testField "Port" [("cfg", "port")] reflect.Int (VInt 0)])
  = (StructOf [testField "Port" [("cfg", "port")] reflect.Int (VInt 0)],
     Some (errorString "config must be a pointer to struct")).
Proof.
  destruct (Load_rejects_other_targets (AddMap New [("port", VInt 8080)]) testOS
              (StructOf [testField "Port" [("cfg", "port")] reflect.Int (VInt 0)]))
    as (Hloaded & _).
  - discriminate.
  - apply (Hloaded {[ "port" := VInt 8080 ]}). reflexivity.
Defined.


(** ** The scenarios of the specification, run on the model *)

(** A map source with [port] and [app.name]; [Debug] takes its default. *)
Example scenario_basic :
  Load (AddMap New [("port", VInt 3000); ("app.name", VString "TestApp")]) testOS
    (pointerToStruct
       [testField "Port" [("cfg", "port"); ("default", "8080")] reflect.Int (VInt 0);
        testField "Debug" [("default", "false")] reflect.Bool (VBool false);
        testField "AppName" [("cfg", "app.name"); ("default", "MyApp")]
          reflect.String (VString "")])
  = (pointerToStruct
       [testField "Port" [("cfg", "port"); ("default", "8080")] reflect.Int (VInt 3000);
        testField "Debug" [("default", "false")] reflect.Bool (VBool false);
        testField "AppName" [("cfg", "app.name"); ("default", "MyApp")]
          reflect.String (VString "TestApp")],
     None).
Proof. reflexivity. Qed.

(** The environment variable wins over the map's [port] in either order
    of registration, because its key is looked up first. *)
Example scenario_environment_override :
  let target :=
    pointerToStruct
      [testField "Port" [("cfg", "port"); ("env", "TEST_PORT"); ("default", "8080")]
         reflect.Int (VInt 0)] in
  let loaded :=
    pointerToStruct
      [testField "Port" [("cfg", "port"); ("env", "TEST_PORT"); ("default", "8080")]
         reflect.Int (VInt 9090)] in
  Load (AddEnv (AddMap New [("port", VInt 3000)])) testOS target = (loaded, None)
  /\ Load (AddMap (AddEnv New) [("port", VInt 3000)]) testOS target = (loaded, None).
Proof. split; reflexivity. Qed.

(** An e-mail address of the wrong shape fails the rule [email]. *)
Example scenario_invalid_email :
  (Load (AddMap New [("email", VString "invalid-email")]) testOS
     (pointerToStruct
        [testField "Email" [("cfg", "email"); ("validate", "required,email")]
           reflect.String (VString "")])).2
  = Some (ValidationError "Email" (VString "invalid-email") "email"
            "invalid email format").
Proof. reflexivity. Qed.

(** No sources: the default is parsed and assigned. *)
Example scenario_default_only :
  Load New testOS
    (pointerToStruct
       [testField "Port" [("cfg", "port"); ("default", "8080")] reflect.Int (VInt 0)])
  = (pointerToStruct
       [testField "Port" [("cfg", "port"); ("default", "8080")] reflect.Int (VInt 8080)],
     None).
Proof. reflexivity. Qed.

(** Strings are converted to the kind of the field, and an integer to a
    string. *)
Example scenario_type_conversion :
  Load (AddMap New [("port", VString "8080"); ("rate", VString "3.14");
                    ("enabled", VString "true"); ("name", VInt 123)]) testOS
    (pointerToStruct
       [testField "Port" [("cfg", "port")] reflect.Int (VInt 0);
        testField "Rate" [("cfg", "rate")] reflect.Float64 (VFloat 0);
        testField "Enabled" [("cfg", "enabled")] reflect.Bool (VBool false);
        testField "Name" [("cfg", "name")] reflect.String (VString "")])
  = (pointerToStruct
       [testField "Port" [("cfg", "port")] reflect.Int (VInt 8080);
        testField "Rate" [("cfg", "rate")] reflect.Float64 (VFloat 0x1.91eb851eb851fp+1);
        testField "Enabled" [("cfg", "enabled")] reflect.Bool (VBool true);
        testField "Name" [("cfg", "name")] reflect.String (VString "123")],
     None).
Proof. reflexivity. Qed.

(** ** The further properties at concrete data *)

Lemma Load_skips_field_witness :
  exists fields',
    (Load (AddMap New [("secret", VString "other")]) testOS
       (pointerToStruct
          [{| Name := "secret"; Tag := [("cfg", "secret")]; FieldKind := reflect.String;
              CanSet := false; Val := VString "kept" |}])).1
    = pointerToStruct fields'
    /\ fields' !! 0%nat
       = Some {| Name := "secret"; Tag := [("cfg", "secret")];
                 FieldKind := reflect.String; CanSet := false; Val := VString "kept" |}.
Proof.
  destruct (Load_skips_field (AddMap New [("secret", VString "other")]) testOS
              [{| Name := "secret"; Tag := [("cfg", "secret")];
                  FieldKind := reflect.String; CanSet := false;
                  Val := VString "kept" |}] 0%nat
              {| Name := "secret"; Tag := [("cfg", "secret")];
                 FieldKind := reflect.String; CanSet := false;
                 Val := VString "kept" |})
    as [Hkept _]; [reflexivity|left; reflexivity|exact Hkept].
Defined.

Lemma Load_idempotent_witness :
  Load (AddMap New [("debug", VBool true); ("port", VInt 8080)]) testOS
    (Load (AddMap New [("port", VInt 8080); ("debug", VBool true)]) testOS
       (pointerToStruct [testField "Port" [("cfg", "port")] reflect.Int (VInt 0)])).1
  = Load (AddMap New [("port", VInt 8080); ("debug", VBool true)]) testOS
      (pointerToStruct [testField "Port" [("cfg", "port")] reflect.Int (VInt 0)]).
Proof.
  apply (Load_idempotent
           (AddMap New [("port", VInt 8080); ("debug", VBool true)])
           (AddMap New [("debug", VBool true); ("port", VInt 8080)])
           testOS testOS);
    [reflexivity|by vm_compute].
Defined.

Lemma range_bounds_never_reach_validator_witness :
  range_validator (VInt 1000) "1000,9999" = None
  /\ validateField New "Port" (VInt 1000) "range:1000,9999"
     = Some (ValidationError "Port" (VInt 1000) "range:1000"
               "range validator requires min,max parameters").
Proof.
  destruct (range_bounds_never_reach_validator "Port" 1000 1000 9999)
    as (Hdirect & Htag & _); [lia..|].
  split; [exact Hdirect|exact Htag].
Defined.

Lemma setValue_int_wraps_witness :
  setValue New (testField "Level" [] reflect.Int8 (VInt 0)) (VInt 300)
  = Ok (setVal (testField "Level" [] reflect.Int8 (VInt 0)) (VInt 44)).
Proof.
  pose proof (setValue_int_wraps New (testField "Level" [] reflect.Int8 (VInt 0))
                (VInt 300) 300 eq_refl ltac:(lia) eq_refl) as Hw.
  cbv zeta in Hw. destruct Hw as [Hset _]. exact Hset.
Defined.

Lemma parseValue_into_int_field_witness :
  setValue New (testField "Port" [] reflect.Int (VInt 0)) (parseValue "1")
  = Err (NumError "ParseInt" "true" ErrSyntax).
Proof.
  destruct (parseValue_into_int_field New (testField "Port" [] reflect.Int (VInt 0)))
    as [Hbool _]; [reflexivity|].
  apply (Hbool "1" true). reflexivity.
Defined.

Lemma default_text_normalised_witness :
  applyField New ∅ (testField "Mode" [("default", "1")] reflect.String (VString ""))
  = Ok (setVal (testField "Mode" [("default", "1")] reflect.String (VString ""))
          (VString "true")).
Proof.
  pose proof (default_text_normalised New ∅
                (testField "Mode" [("default", "1")] reflect.String (VString ""))
                eq_refl eq_refl) as Hw.
  cbv zeta in Hw. destruct Hw as [Hbool _].
  - split; left; reflexivity.
  - discriminate.
  - apply (Hbool true). reflexivity.
Defined.

Lemma untagged_field_ignores_sources_witness :
  applyField New {[ "name" := VString "loaded" ]}
    (testField "Name" [("default", "app")] reflect.String (VString ""))
  = applyField New ∅
      (testField "Name" [("default", "app")] reflect.String (VString "")).
Proof.
  apply (untagged_field_ignores_sources New {[ "name" := VString "loaded" ]}
           (testField "Name" [("default", "app")] reflect.String (VString "")));
    reflexivity.
Defined.

Lemma nil_env_value_hides_config_witness :
  findValue New (<["app_port" := VNil]> {[ "port" := VInt 8080 ]})
    (getFieldConfig New
       (testField "Port" [("cfg", "port"); ("env", "APP_PORT")] reflect.Int (VInt 7)))
  = VNil
  /\ applyField New (<["app_port" := VNil]> {[ "port" := VInt 8080 ]})
       (testField "Port" [("cfg", "port"); ("env", "APP_PORT")] reflect.Int (VInt 7))
     = applyField New ∅
         (testField "Port" [("cfg", "port"); ("env", "APP_PORT")] reflect.Int (VInt 7)).
Proof.
  apply (nil_env_value_hides_config New
           (<["app_port" := VNil]> {[ "port" := VInt 8080 ]})
           (testField "Port" [("cfg", "port"); ("env", "APP_PORT")] reflect.Int (VInt 7)));
    [discriminate|reflexivity].
Defined.

Lemma default_not_validated_witness :
  applyField New ∅
    (testField "Port" [("cfg", "port"); ("validate", "min:1000"); ("default", "80")]
       reflect.Int (VInt 0))
  = applyField {| sources := []; validators := ∅; strict := false |} ∅
      (testField "Port" [("cfg", "port"); ("validate", "min:1000"); ("default", "80")]
         reflect.Int (VInt 0)).
Proof.
  apply (default_not_validated New {| sources := []; validators := ∅; strict := false |} ∅
           (testField "Port" [("cfg", "port"); ("validate", "min:1000"); ("default", "80")]
              reflect.Int (VInt 0))).
  split; right; reflexivity.
Defined.

Lemma Strict_changes_nothing_witness :
  Load {| sources := [{| Source.Load := MapSource_Load [("port", VInt 8080)];
                         Source.Priority := 9 |}];
          validators := getBuiltinValidators;
          strict := true |}
    testOS (pointerToStruct [testField "Port" [("cfg", "port")] reflect.Int (VInt 0)])
  = Load (AddMap New [("port", VInt 8080)]) testOS
      (pointerToStruct [testField "Port" [("cfg", "port")] reflect.Int (VInt 0)]).
Proof.
  destruct (Strict_changes_nothing (AddMap New [("port", VInt 8080)]) testOS
              (pointerToStruct [testField "Port" [("cfg", "port")] reflect.Int (VInt 0)]))
    as (_ & _ & Hsame).
  apply Hsame; reflexivity.
Defined.

Lemma AddValidator_one_name_witness :
  validateField (AddValidator New "even" (fun _ _ => Some (errorString "odd")))
    "Port" (VInt 8081) "min:1000,max:9999"
  = validateField New "Port" (VInt 8081) "min:1000,max:9999".
Proof.
  destruct (AddValidator_one_name New "even" (fun _ _ => Some (errorString "odd"))
              "Port" (VInt 8081)) as [Hframe _].
  apply Hframe.
  change (strings.Split "min:1000,max:9999" ",") with ["min:1000"; "max:9999"].
  repeat (constructor; [by vm_compute|]). constructor.
Defined.

Lemma min_max_inclusive_witness :
  validateField New "Port" (VInt 9999) "min:1000,max:9999" = None.
Proof.
  destruct (min_max_inclusive "Port" 9999 1000 9999) as (_ & _ & Hboth); [lia..|].
  exact (proj2 Hboth ltac:(lia)).
Defined.

Lemma range_rule_always_fails_witness :
  validateField New "Port" (VInt 8080) "range:1000,9999"
  = Some (ValidationError "Port" (VInt 8080) "range:1000"
            "range validator requires min,max parameters").
Proof.
  apply (range_rule_always_fails New "Port" (VInt 8080) "1000" "9999"); reflexivity.
Defined.

Lemma builtin_validators_judge_text_witness :
  min_validator (VInt 8080) "1000" = min_validator (VString "8080") "1000".
Proof.
  apply (builtin_validators_judge_text "min" min_validator (VInt 8080) (VString "8080"));
    [reflexivity|discriminate|discriminate|reflexivity].
Defined.

Lemma EnvSource_Load_entries_witness :
  exists out,
    Source.Load EnvSource testOS = Ok out
    /\ out !! "test_port" = Some (VInt 9090).
Proof.
  destruct (EnvSource_Load_entries testOS) as (out & Hload & Hlast & _).
  exists out. split; [exact Hload|].
  exact (Hlast ["HOME=/root"] [] "TEST_PORT" "9090" eq_refl eq_refl
           (List.Forall_nil _)).
Defined.

Lemma FileSource_Load_by_extension_witness :
  Source.Load (FileSource "app.config.TOML") fileOS
  = Err (errorString "unsupported file format: toml").
Proof.
  pose proof (FileSource_Load_by_extension fileOS "app.config" "TOML" eq_refl) as Hw.
  cbv zeta in Hw. destruct Hw as [_ Hdata].
  destruct (Hdata "port = 8080" eq_refl) as (_ & _ & Hother).
  apply Hother; by vm_compute.
Defined.

Lemma merged_namespace_flat_witness :
  exists merged,
    mergeSources
      (sources (AddEnv (AddMap New [("server", VMap [("port", VInt 8080)])])))
      testOS ∅ = Ok merged
    /\ flatNamespace merged.
Proof.
  eexists. split; [reflexivity|].
  apply (merged_namespace_flat
           (AddEnv (AddMap New [("server", VMap [("port", VInt 8080)])])) testOS);
    [apply Built_AddEnv, Built_AddMap, Built_New|reflexivity].
Defined.

Lemma missing_files_are_skipped_witness :
  exists merged,
    mergeSources
      (sources (AddFile (AddMap New [("port", VInt 8080)]) "config.json"))
      testOS ∅ = Ok merged.
Proof.
  apply (missing_files_are_skipped
           (AddFile (AddMap New [("port", VInt 8080)]) "config.json") testOS);
    [apply Built_AddFile, Built_AddMap, Built_New|].
  intros path _. reflexivity.
Defined.

Lemma builtin_names_stay_registered_witness :
  is_Some (validators (AddValidator New "even" (fun _ _ => None)) !! "range").
Proof.
  apply (builtin_names_stay_registered (AddValidator New "even" (fun _ _ => None))
           "range");
    [apply Built_AddValidator, Built_New|].
  do 2 apply list_elem_of_further. apply list_elem_of_here.
Defined.

Lemma setValue_bool_field_witness :
  setValue New (testField "Debug" [] reflect.Bool (VBool false)) (VInt 2)
  = Err (NumError "ParseBool" "2" ErrSyntax).
Proof.
  destruct (setValue_bool_field New (testField "Debug" [] reflect.Bool (VBool false)))
    as (_ & _ & _ & _ & Hother); [reflexivity|].
  exact (Hother 2 ltac:(lia) ltac:(lia) ltac:(lia)).
Defined.

Lemma Load_map_round_trip_witness :
  Load (AddMap New [("server", VMap [("port", VInt 8080)])]) testOS
    (pointerToStruct
       [{| Name := "Port"; Tag := [("cfg", "server.port")]; FieldKind := reflect.Int;
           CanSet := true; Val := VInt 0 |}])
  = (pointerToStruct
       [{| Name := "Port"; Tag := [("cfg", "server.port")]; FieldKind := reflect.Int;
           CanSet := true; Val := VInt 8080 |}], None).
Proof.
  apply (Load_map_round_trip testOS [("server", VMap [("port", VInt 8080)])]
           "server.port" "Port" 8080 (VInt 0));
    [discriminate|lia|reflexivity].
Defined.
